(** * Text-to-SQL harness: prompt assembly, SQL extraction, collation

    A shallow embedding of the pure parts of [prompting_utils.py],
    [prompting.py] and [load_data.py], followed by the properties the
    specification states about them.

    Conventions of the embedding.
    - A Python [str] is a [list ascii].  Case mapping and the whitespace
      class follow Python on the ASCII range (codes 0..127); codes above 127
      are caseless and are not whitespace.
    - A Python [int] is a [Z]; list lengths and indices are [nat].
    - A function that can raise returns [option]; [None] stands for the
      exception ([IndexError], [KeyError], [RuntimeError],
      [ZeroDivisionError]) named at the place it arises.
    - A 1-D integer tensor is a [list Z], a 2-D one a [list (list Z)].
    - The tokenizer, the generation model and the metrics module are external
      collaborators: they are [Variable]s of the sections that use them. *)

From Stdlib Require Import Ascii String.
From Stdlib Require Import List ZArith QArith Lia Bool Arith.
Import ListNotations.

Close Scope Q_scope.
Local Open Scope char_scope.
Local Open Scope list_scope.
Local Open Scope nat_scope.

(* ================================================================= *)
(** ** Python string primitives *)

Module PyStr.

Definition str := list ascii.

(** A string literal of the source. *)
Definition lit (s : string) : str := list_ascii_of_string s.

(** [str.isspace] on one character, which is also the class [\s] of [re]
    for [str] patterns: TAB, LF, VT, FF, CR, the separators 0x1c..0x1f,
    and the space. *)
Definition is_space (c : ascii) : bool :=
  let n := nat_of_ascii c in
  ((9 <=? n) && (n <=? 13)) || ((28 <=? n) && (n <=? 32)).

(** [str.upper] on one character. *)
Definition upper_char (c : ascii) : ascii :=
  let n := nat_of_ascii c in
  if (97 <=? n) && (n <=? 122) then ascii_of_nat (n - 32) else c.

(** [s.upper()] *)
Definition upper (s : str) : str := map upper_char s.

(** Equality of two characters under [re.IGNORECASE]. *)
Definition ci_eqb (a b : ascii) : bool :=
  Ascii.eqb (upper_char a) (upper_char b).

(** [s.startswith(p)], returning what follows the prefix. *)
Fixpoint strip_prefix (p s : str) : option str :=
  match p, s with
  | [], _ => Some s
  | _ :: _, [] => None
  | a :: p', b :: s' => if Ascii.eqb a b then strip_prefix p' s' else None
  end.

(** The same under [re.IGNORECASE]; the matched text keeps its own case. *)
Fixpoint strip_prefix_ci (p s : str) : option (str * str) :=
  match p, s with
  | [], _ => Some ([], s)
  | _ :: _, [] => None
  | a :: p', b :: s' =>
      if ci_eqb a b then
        match strip_prefix_ci p' s' with
        | Some (m, rest) => Some (b :: m, rest)
        | None => None
        end
      else None
  end.

(** [pat in s] *)
Fixpoint contains (pat s : str) : bool :=
  match strip_prefix pat s with
  | Some _ => true
  | None => match s with
            | [] => false
            | _ :: s' => contains pat s'
            end
  end.

(** [s.replace(old, new)] for a non-empty [old]: occurrences are found from
    the left and do not overlap.  Every step consumes a character, so
    [length s] steps are enough. *)
Fixpoint replace_fuel (n : nat) (old new s : str) : str :=
  match n with
  | O => s
  | S n' =>
      match strip_prefix old s with
      | Some rest => new ++ replace_fuel n' old new rest
      | None => match s with
                | [] => []
                | c :: s' => c :: replace_fuel n' old new s'
                end
      end
  end.

Definition replace (old new s : str) : str :=
  replace_fuel (length s) old new s.

(** [s.split(sep)] for a non-empty [sep]; [cur] holds the part being read,
    reversed. *)
Fixpoint split_fuel (n : nat) (sep cur s : str) : list str :=
  match n with
  | O => [rev cur ++ s]
  | S n' =>
      match strip_prefix sep s with
      | Some rest => rev cur :: split_fuel n' sep [] rest
      | None => match s with
                | [] => [rev cur]
                | c :: s' => split_fuel n' sep (c :: cur) s'
                end
      end
  end.

Definition split (sep s : str) : list str :=
  split_fuel (S (length s)) sep [] s.

(** [s.lstrip()], [s.rstrip()], [s.strip()] *)
Fixpoint lstrip (s : str) : str :=
  match s with
  | [] => []
  | c :: s' => if is_space c then lstrip s' else s
  end.

Definition rstrip (s : str) : str := rev (lstrip (rev s)).

Definition strip (s : str) : str := rstrip (lstrip s).

(** [s.endswith(c)] for a one-character suffix. *)
Definition endswith_char (s : str) (c : ascii) : bool :=
  match rev s with
  | [] => false
  | d :: _ => Ascii.eqb d c
  end.

(** Truthiness of a string: [bool(s)]. *)
Definition truthy (s : str) : bool :=
  match s with
  | [] => false
  | _ :: _ => true
  end.

End PyStr.

Import PyStr.

(* ================================================================= *)
(** ** prompting_utils.py *)

Module PromptingUtils.

Definition BOS : str := lit "<bos>".
Definition EOS : str := lit "<eos>".

(** [re.search(r'(SELECT\s+.*?;)', s, re.DOTALL | re.IGNORECASE)], one
    start position.  [\s+] needs one whitespace character after the keyword;
    no whitespace character is a semicolon and [.] matches every character
    under DOTALL, so the lazy [.*?;] stops at the first semicolon. *)
Fixpoint through_semicolon (s : str) : option str :=
  match s with
  | [] => None
  | c :: s' =>
      if Ascii.eqb c ";" then Some [c]
      else match through_semicolon s' with
           | Some m => Some (c :: m)
           | None => None
           end
  end.

Definition match_select_here (s : str) : option str :=
  match strip_prefix_ci (lit "SELECT") s with
  | Some (kw, w :: rest) =>
      if is_space w then
        match through_semicolon rest with
        | Some m => Some (kw ++ w :: m)
        | None => None
        end
      else None
  | _ => None
  end.

(** The search proper: the leftmost start position that matches. *)
Fixpoint re_search_select (s : str) : option str :=
  match match_select_here s with
  | Some m => Some m
  | None => match s with
            | [] => None
            | _ :: s' => re_search_select s'
            end
  end.

(** [re.sub(r'```(sql)?', '', q, flags=re.IGNORECASE)]: every three
    backticks go, together with a directly following "sql" in any case. *)
Fixpoint sub_fences_fuel (n : nat) (s : str) : str :=
  match n with
  | O => s
  | S n' =>
      match strip_prefix (lit "```") s with
      | Some rest =>
          match strip_prefix_ci (lit "sql") rest with
          | Some (_, rest') => sub_fences_fuel n' rest'
          | None => sub_fences_fuel n' rest
          end
      | None => match s with
                | [] => []
                | c :: s' => c :: sub_fences_fuel n' s'
                end
      end
  end.

Definition sub_fences (s : str) : str := sub_fences_fuel (length s) s.

(** [re.sub(r'\s+', ' ', q)]: [in_run] tells that the previous character
    was whitespace, so the run has its space already. *)
Fixpoint sub_ws (in_run : bool) (s : str) : str :=
  match s with
  | [] => []
  | c :: s' =>
      if is_space c then
        if in_run then sub_ws true s' else " " :: sub_ws true s'
      else c :: sub_ws false s'
  end.

(** Lines 19-21: the special-token markers go. *)
Definition strip_special_tokens (response : str) : str :=
  let response := replace EOS [] (replace BOS [] response) in
  let response := replace (lit "</s>") [] (replace (lit "<s>") [] response) in
  replace (lit "<eos>") [] (replace (lit "<bos>") [] response).

(** Lines 24-26: what follows the last "SQL:" of the upper-cased response. *)
Definition cut_at_label (response : str) : str :=
  if contains (lit "SQL:") (upper response) then
    last (split (lit "SQL:") (upper response)) []
  else response.

(** Lines 29-30. *)
Definition select_candidate (response : str) : str :=
  match re_search_select response with
  | Some m => m
  | None => response
  end.

(** Lines 32-34. *)
Definition clean_query (query : str) : str :=
  let query := sub_fences query in
  let query := replace (lit (String "010" EmptyString)) (lit " ") query in
  strip (sub_ws false query).

(** Lines 36-37. *)
Definition terminate (query : str) : str :=
  if truthy query && negb (endswith_char query ";") then query ++ [";"]
  else query.

Definition extract_sql_query (response : str) : str :=
  terminate
    (clean_query (select_candidate (cut_at_label (strip_special_tokens response)))).

End PromptingUtils.

Import PromptingUtils.

(* ================================================================= *)
(** ** prompting.py *)

Module Prompting.

Definition nl : str := ["010"].

Definition INSTRUCT0 : str :=
  lit "Convert English questions to SQL queries." ++ nl ++ nl.

Definition INSTRUCT1 : str :=
  lit "Convert English questions to SQL queries for a flight database. Use proper SQL syntax with correct table joins and aliases. Output only the SQL query."
  ++ nl ++ nl.

Definition INSTRUCT2 : str :=
  lit "Convert English questions to SQL queries for a flight database. Use proper SQL syntax with SELECT, FROM, WHERE, and JOIN clauses. Always use table aliases like flight_1, city_1, airport_service_1, etc. Join tables correctly through their foreign key relationships. End all queries with a semicolon."
  ++ nl ++ nl.

(** Truthiness of an optional list argument whose default is [None]. *)
Definition truthy_list {A : Type} (l : option (list A)) : bool :=
  match l with
  | Some (_ :: _) => true
  | _ => false
  end.

Definition len_of {A : Type} (l : option (list A)) : nat :=
  match l with
  | Some l => length l
  | None => 0
  end.

(** [l[idx]]: [None] is Python's [IndexError]. *)
Definition getitem {A : Type} (l : option (list A)) (idx : nat) : option A :=
  match l with
  | Some l => nth_error l idx
  | None => None
  end.

(** Lines 32-42: the instruction text of a prompt type, with the schema
    excerpt of the last branch. *)
Definition instruction (schema : option str) (ptype : Z) : str :=
  if (ptype =? 0)%Z then INSTRUCT0
  else if (ptype =? 1)%Z then INSTRUCT1
  else
    match schema with
    | Some sc =>
        if truthy sc then
          INSTRUCT2 ++ lit "Schema: " ++ firstn 300 sc ++ nl ++ nl
        else INSTRUCT2
    | None => INSTRUCT2
    end.

(** Lines 48-50: the SQL of one example. *)
Definition example_sql (y : str) : str :=
  let sql := strip y in
  if negb (endswith_char sql ";") then sql ++ [";"] else sql.

(** Lines 47-51: the loop over [range(min(k, len(train_x)))], here over the
    list of its indices. *)
Fixpoint add_examples (idxs : list nat) (train_x train_y : option (list str))
    (instruct : str) : option str :=
  match idxs with
  | [] => Some instruct
  | idx :: idxs' =>
      match getitem train_y idx with
      | None => None
      | Some y =>
          let sql := example_sql y in
          match getitem train_x idx with
          | None => None
          | Some x =>
              add_examples idxs' train_x train_y
                (instruct ++ x ++ nl ++ sql ++ nl ++ nl)
          end
      end
  end.

Definition create_prompt (sentence : str) (k : Z)
    (train_x train_y : option (list str)) (schema : option str) (ptype : Z)
    : option str :=
  let instruct := instruction schema ptype in
  let instruct :=
    if (k >? 0)%Z && truthy_list train_x && truthy_list train_y then
      add_examples (seq 0 (Z.to_nat (Z.min k (Z.of_nat (len_of train_x)))))
        train_x train_y instruct
    else Some instruct in
  match instruct with
  | Some instruct => Some (instruct ++ sentence)
  | None => None
  end.

(** Lines 98-99: what becomes of the decoded output before extraction. *)
Definition strip_prompt (prompt response : str) : str :=
  if length prompt <? length response then
    strip (skipn (length prompt) response)
  else response.

Section Generation.

(** Tokenizing the prompt, sampling from the model and decoding the
    result, for the [i]-th input. *)
Variable generate : nat -> str -> str.

(** Lines 106-119: the diagnostics of the first five inputs.  What they
    print is left out; among what they evaluate, the slices cannot raise,
    and [ground_truth[i]] is read when a ground truth is given and is not
    empty, which raises past its end. *)
Definition read_ground_truth (i : nat) (ground_truth : option (list str))
    : option unit :=
  if (i <? 5) && truthy_list ground_truth then
    match getitem ground_truth i with
    | Some _ => Some tt
    | None => None
    end
  else Some tt.

(** The loop of [exp_kshot]. *)
Fixpoint exp_kshot_from (i : nat) (inputs : list str) (k : Z)
    (train_x train_y : option (list str)) (schema : option str) (ptype : Z)
    (ground_truth : option (list str))
    (raw_outputs extracted_queries : list str)
    : option (list str * list str) :=
  match inputs with
  | [] => Some (raw_outputs, extracted_queries)
  | sentence :: inputs' =>
      match create_prompt sentence k train_x train_y schema ptype with
      | None => None
      | Some prompt =>
          let response := generate i prompt in
          let response := strip_prompt prompt response in
          let extracted_query := extract_sql_query response in
          match read_ground_truth i ground_truth with
          | None => None
          | Some _ =>
              exp_kshot_from (S i) inputs' k train_x train_y schema ptype
                ground_truth
                (raw_outputs ++ [response])
                (extracted_queries ++ [extracted_query])
          end
      end
  end.

Definition exp_kshot (inputs : list str) (k : Z)
    (train_x train_y : option (list str)) (schema : option str) (ptype : Z)
    (ground_truth : option (list str))
    : option (list str * list str) :=
  exp_kshot_from 0 inputs k train_x train_y schema ptype ground_truth [] [].

End Generation.

(** [a / b] on two integers: the exact quotient, [None] for Python's
    [ZeroDivisionError].  The rounding of the quotient to a float is not
    modelled. *)
Definition truediv (a b : Z) : option Q :=
  if (b =? 0)%Z then None else Some (inject_Z a / inject_Z b)%Q.

(** [sum(1 for msg in error_msgs if msg != "")] *)
Fixpoint count_errors (error_msgs : list str) : Z :=
  match error_msgs with
  | [] => 0%Z
  | msg :: rest =>
      if truthy msg then (1 + count_errors rest)%Z else count_errors rest
  end.

(** Line 134. *)
Definition error_rate_of (error_msgs : list str) : option Q :=
  if (Z.of_nat (length error_msgs) >? 0)%Z then
    truediv (count_errors error_msgs) (Z.of_nat (length error_msgs))
  else Some (inject_Z 0).

Section Evaluation.

Variables path metric : Type.

(** [utils.compute_metrics]; [utils.save_queries_and_records] only writes
    files and is left out. *)
Variable compute_metrics :
  path -> path -> path -> path -> metric * metric * metric * list str.

Definition eval_outputs (gt_sql_pth model_sql_path gt_record_path
    model_record_path : path) (extracted_queries : list str)
    : option (metric * metric * metric * list str * Q) :=
  let '(sql_em, record_em, record_f1, error_msgs) :=
    compute_metrics gt_sql_pth model_sql_path gt_record_path
      model_record_path in
  match error_rate_of error_msgs with
  | Some error_rate =>
      Some (sql_em, record_em, record_f1, error_msgs, error_rate)
  | None => None
  end.

End Evaluation.

(** Lines 185-189 of [main]: the schema handed to [exp_kshot].
    [schema_file] is the text of the schema file, [None] when the file does
    not exist. *)
Definition main_schema (ptype : Z) (schema_file : option str) : option str :=
  if (ptype =? 1)%Z || (ptype =? 2)%Z then schema_file else None.

End Prompting.

Import Prompting.

(* ================================================================= *)
(** ** load_data.py *)

Module LoadData.

Definition PAD_IDX : Z := 0.
Definition BOS : str := lit "<extra_id_0>".

(** One entry of [T5Dataset.data]: a dictionary whose two decoder sequences
    are absent on the test split. *)
Record example := {
  encoder_input_ids : list Z;
  encoder_attention_mask : list Z;
  decoder_input_ids : option (list Z);
  decoder_target_ids : option (list Z);
  decoder_start_token : Z
}.

Definition str_eqb (a b : str) : bool :=
  if list_eq_dec ascii_dec a b then true else false.

Section Dataset.

(** The T5 tokenizer: [tokenizer(text, truncation=True, max_length=512)]
    with its ids and attention mask, [tokenizer(text)] and its ids,
    [convert_tokens_to_ids] on one token, and [eos_token_id]. *)
Variable tokenize_truncated : str -> list Z * list Z.
Variable tokenize : str -> list Z.
Variable convert_token_to_id : str -> Z.
Variable eos_token_id : Z.

Definition encoder_prompt (nl_in : str) : str :=
  lit "Convert the following English to SQL query: " ++ nl_in.

Definition test_example (nl_in : str) : example :=
  let encoder_in := tokenize_truncated (encoder_prompt nl_in) in
  let decoder_begin := convert_token_to_id BOS in
  {| encoder_input_ids := fst encoder_in;
     encoder_attention_mask := snd encoder_in;
     decoder_input_ids := None;
     decoder_target_ids := None;
     decoder_start_token := decoder_begin |}.

Definition train_example (pair : str * str) : example :=
  let '(nl_in, sql_out) := pair in
  let encoder_in := tokenize_truncated (encoder_prompt nl_in) in
  let decoder_out := tokenize sql_out in
  let decoder_begin := convert_token_to_id BOS in
  {| encoder_input_ids := fst encoder_in;
     encoder_attention_mask := snd encoder_in;
     decoder_input_ids := Some ([decoder_begin] ++ decoder_out);
     decoder_target_ids := Some (decoder_out ++ [eos_token_id]);
     decoder_start_token := decoder_begin |}.

(** [process_data] on the lines [load_lines] has read: [data_in] from
    the [.nl] file and [data_out] from the [.sql] file of the split. *)
Definition process_data (split : str) (data_in data_out : list str)
    : list example :=
  if str_eqb split (lit "test") then map test_example data_in
  else map train_example (combine data_in data_out).

End Dataset.

(** [pad_sequence(seqs, batch_first=True, padding_value=v)]: every row is
    filled on the right up to the longest; an empty list of rows is
    refused with a [RuntimeError]. *)
Definition pad_to (n : nat) (v : Z) (row : list Z) : list Z :=
  row ++ repeat v (n - length row).

Definition pad_sequence (seqs : list (list Z)) (padding_value : Z)
    : option (list (list Z)) :=
  match seqs with
  | [] => None
  | _ :: _ =>
      Some (map (pad_to (list_max (map (@length Z) seqs)) padding_value) seqs)
  end.

(** [[item[key] for item in batch]] for a key that can be absent: the
    first absent one raises [KeyError]. *)
Fixpoint collect {A : Type} (field : example -> option A)
    (batch : list example) : option (list A) :=
  match batch with
  | [] => Some []
  | item :: batch' =>
      match field item with
      | None => None
      | Some v =>
          match collect field batch' with
          | None => None
          | Some vs => Some (v :: vs)
          end
      end
  end.

Definition normal_collate_fn (batch : list example)
    : option (list (list Z) * list (list Z) * list (list Z) * list (list Z)
              * list Z) :=
  let encoder_ids := map encoder_input_ids batch in
  let encoder_masks := map encoder_attention_mask batch in
  match collect decoder_input_ids batch with
  | None => None
  | Some decoder_inputs =>
  match collect decoder_target_ids batch with
  | None => None
  | Some decoder_targets =>
  match pad_sequence encoder_ids PAD_IDX with
  | None => None
  | Some encoder_ids =>
  match pad_sequence encoder_masks 0 with
  | None => None
  | Some encoder_masks =>
  match pad_sequence decoder_inputs PAD_IDX with
  | None => None
  | Some decoder_inputs =>
  match pad_sequence decoder_targets PAD_IDX with
  | None => None
  | Some decoder_targets =>
      let initial_decoder_inputs := map decoder_start_token batch in
      Some (encoder_ids, encoder_masks, decoder_inputs, decoder_targets,
            initial_decoder_inputs)
  end end end end end end.

(** [test_collate_fn]: the two encoder fields and the start tokens only. *)
Definition test_collate_fn (batch : list example)
    : option (list (list Z) * list (list Z) * list Z) :=
  let encoder_ids := map encoder_input_ids batch in
  let encoder_masks := map encoder_attention_mask batch in
  match pad_sequence encoder_ids PAD_IDX with
  | None => None
  | Some encoder_ids =>
  match pad_sequence encoder_masks 0 with
  | None => None
  | Some encoder_masks =>
      let initial_decoder_inputs := map decoder_start_token batch in
      Some (encoder_ids, encoder_masks, initial_decoder_inputs)
  end end.

(** What a loader of [get_dataloader] hands out for one batch: the result
    of the collation function chosen for the split. *)
Inductive collated : Type :=
| NormalBatch (fields : list (list Z) * list (list Z) * list (list Z)
                        * list (list Z) * list Z)
| TestBatch (fields : list (list Z) * list (list Z) * list Z).

(** [get_dataloader]: [shuffle = split == "train"], and the collation
    function is [normal_collate_fn] unless the split is "test".  Batching
    and shuffling themselves belong to the [DataLoader]. *)
Definition get_dataloader_shuffle (split : str) : bool :=
  str_eqb split (lit "train").

Definition get_dataloader_collate_fn (split : str) (batch : list example)
    : option collated :=
  if negb (str_eqb split (lit "test")) then
    match normal_collate_fn batch with
    | Some fields => Some (NormalBatch fields)
    | None => None
    end
  else
    match test_collate_fn batch with
    | Some fields => Some (TestBatch fields)
    | None => None
    end.

(** [f.readlines()] on the text of a file, as text mode delivers it: a line
    ends with its newline, and what follows the last newline is a line when
    it is not empty.  [cur] holds the line being read, reversed. *)
Fixpoint readlines_from (cur s : str) : list str :=
  match s with
  | [] => match cur with
          | [] => []
          | _ :: _ => [rev cur]
          end
  | c :: s' =>
      if Ascii.eqb c "010" then rev (c :: cur) :: readlines_from [] s'
      else readlines_from (c :: cur) s'
  end.

Definition readlines (content : str) : list str := readlines_from [] content.

(** Lines 157-158 of [load_lines], on the text read. *)
Definition stripped_lines (content : str) : list str :=
  map strip (readlines content).

Section Files.

(** The file system: the text that [open] and [readlines] get from the file
    at a path, [None] when either of them raises (no such file, a content
    that does not decode); and [os.path.join]. *)
Variable read_text : str -> option str.
Variable path_join : str -> str -> str.

Definition load_lines (path : str) : option (list str) :=
  match read_text path with
  | Some content => Some (stripped_lines content)
  | None => None
  end.

Definition load_prompting_data (data_folder : str)
    : option (list str * list str * list str * list str * list str) :=
  match load_lines (path_join data_folder (lit "train.nl")) with
  | None => None
  | Some train_x =>
  match load_lines (path_join data_folder (lit "train.sql")) with
  | None => None
  | Some train_y =>
  match load_lines (path_join data_folder (lit "dev.nl")) with
  | None => None
  | Some dev_x =>
  match load_lines (path_join data_folder (lit "dev.sql")) with
  | None => None
  | Some dev_y =>
  match load_lines (path_join data_folder (lit "test.nl")) with
  | None => None
  | Some test_x => Some (train_x, train_y, dev_x, dev_y, test_x)
  end end end end end.

End Files.

End LoadData.

Import LoadData.

(* ================================================================= *)
(** ** Properties of the data loader *)

Section DatasetFacts.

Variable tokenize_truncated : str -> list Z * list Z.
Variable tokenize : str -> list Z.
Variable convert_token_to_id : str -> Z.
Variable eos_token_id : Z.

Let process := process_data tokenize_truncated tokenize convert_token_to_id
                 eos_token_id.

Lemma str_eqb_false (a b : str) : a <> b -> str_eqb a b = false.
Proof.
  intros Hne. unfold str_eqb.
  destruct (list_eq_dec ascii_dec a b) as [Heq | _]; [contradiction | reflexivity].
Qed.

(** C4. Every example that [process_data] builds for a split other than
    "test" comes from a pair of the two files; its decoder input is the
    start id followed by the tokenized target, its decoder target is the
    tokenized target followed by the end-of-sequence id, and so the
    decoder target is the decoder input without its first element and
    with the end-of-sequence id appended: position [i] of the target
    holds what position [i + 1] of the input holds. *)
Theorem process_data_decoder_shift (split : str) (data_in data_out : list str)
    (ex : example) :
  split <> lit "test" ->
  In ex (process split data_in data_out) ->
  exists nl_in sql_out input target,
    In (nl_in, sql_out) (combine data_in data_out) /\
    decoder_input_ids ex = Some input /\
    decoder_target_ids ex = Some target /\
    input = convert_token_to_id LoadData.BOS :: tokenize sql_out /\
    target = tokenize sql_out ++ [eos_token_id] /\
    target = tl input ++ [eos_token_id] /\
    length target = length input /\
    (forall i, S i < length input ->
       nth_error target i = nth_error input (S i)) /\
    nth_error target (length input - 1) = Some eos_token_id.
Proof.
  intros Hsplit Hin. unfold process, process_data in Hin.
  rewrite (str_eqb_false _ _ Hsplit) in Hin.
  apply in_map_iff in Hin. destruct Hin as [[nl_in sql_out] [Hex Hpair]].
  exists nl_in, sql_out.
  exists (convert_token_to_id LoadData.BOS :: tokenize sql_out).
  exists (tokenize sql_out ++ [eos_token_id]).
  subst ex. simpl.
  repeat split; try assumption.
  - rewrite length_app. simpl. lia.
  - intros i Hi. simpl in Hi.
    rewrite nth_error_app1 by lia. reflexivity.
  - rewrite Nat.sub_0_r, nth_error_app2 by lia.
    rewrite Nat.sub_diag. reflexivity.
Qed.

End DatasetFacts.

(** A tokenizer to run the loader on: one id per character. *)
Definition char_ids (s : str) : list Z :=
  map (fun c => Z.of_nat (nat_of_ascii c)) s.

Lemma process_data_decoder_shift_witness :
  exists nl_in sql_out input target,
    In (nl_in, sql_out) (combine [lit "q"] [lit "ab"]) /\
    decoder_input_ids
      (train_example (fun s => (char_ids s, map (fun _ => 1%Z) s)) char_ids
         (fun _ => 32099%Z) 1%Z (lit "q", lit "ab")) = Some input /\
    decoder_target_ids
      (train_example (fun s => (char_ids s, map (fun _ => 1%Z) s)) char_ids
         (fun _ => 32099%Z) 1%Z (lit "q", lit "ab")) = Some target /\
    input = 32099%Z :: char_ids sql_out /\
    target = char_ids sql_out ++ [1%Z] /\
    target = tl input ++ [1%Z] /\
    length target = length input /\
    (forall i, S i < length input ->
       nth_error target i = nth_error input (S i)) /\
    nth_error target (length input - 1) = Some 1%Z.
Proof.
  apply (process_data_decoder_shift
           (fun s => (char_ids s, map (fun _ => 1%Z) s)) char_ids
           (fun _ => 32099%Z) 1%Z (lit "dev") [lit "q"] [lit "ab"]).
  - vm_compute. discriminate.
  - vm_compute. left. reflexivity.
Defined.

(** *** Collation *)

(** [out] holds the rows of [rows], in their order, each filled on the
    right with [v] up to the length of the longest of them. *)
Definition right_padded (v : Z) (rows out : list (list Z)) : Prop :=
  let longest := list_max (map (@length Z) rows) in
  (exists row, In row rows /\ length row = longest) /\
  Forall (fun row => length row <= longest) rows /\
  Forall2 (fun row padded =>
             padded = row ++ repeat v (longest - length row) /\
             length padded = longest) rows out.

Lemma list_max_attained (l : list nat) :
  l <> [] -> In (list_max l) l.
Proof.
  induction l as [| a l IH]; intros Hne; [contradiction |].
  destruct l as [| b l].
  - left. simpl. lia.
  - change (list_max (a :: b :: l)) with (Nat.max a (list_max (b :: l))).
    destruct (Nat.max_spec a (list_max (b :: l))) as [[_ Hm] | [_ Hm]];
      rewrite Hm.
    + right. apply IH. discriminate.
    + left. reflexivity.
Qed.

Lemma list_max_bounds (l : list nat) :
  Forall (fun k => k <= list_max l) l.
Proof. apply list_max_le. lia. Qed.

Lemma pad_to_length (n : nat) (v : Z) (row : list Z) :
  length row <= n -> length (pad_to n v row) = n.
Proof.
  intros Hle. unfold pad_to. rewrite length_app, repeat_length. lia.
Qed.

Lemma map_pad_Forall2 (n : nat) (v : Z) (rows : list (list Z)) :
  Forall (fun row => length row <= n) rows ->
  Forall2 (fun row padded =>
             padded = row ++ repeat v (n - length row) /\ length padded = n)
    rows (map (pad_to n v) rows).
Proof.
  induction 1 as [| row rows Hrow _ IH]; simpl; constructor.
  - split; [reflexivity | apply pad_to_length; assumption].
  - exact IH.
Qed.

Lemma pad_sequence_spec (v : Z) (rows : list (list Z)) :
  rows <> [] ->
  exists out, pad_sequence rows v = Some out /\ right_padded v rows out.
Proof.
  intros Hne.
  assert (Hlen : Forall (fun row => length row <= list_max (map (@length Z) rows)) rows).
  { pose proof (list_max_bounds (map (@length Z) rows)) as Hb.
    rewrite Forall_map in Hb. exact Hb. }
  exists (map (pad_to (list_max (map (@length Z) rows)) v) rows). split.
  - destruct rows; [contradiction | reflexivity].
  - unfold right_padded. repeat split.
    + assert (Hin : In (list_max (map (@length Z) rows)) (map (@length Z) rows)).
      { apply list_max_attained. destruct rows; [contradiction | discriminate]. }
      apply in_map_iff in Hin. destruct Hin as [row [Hrow Hin]].
      exists row. split; assumption.
    + exact Hlen.
    + apply map_pad_Forall2. exact Hlen.
Qed.

Lemma collect_present {A : Type} (field : example -> option A)
    (batch : list example) (vs : list A) :
  map field batch = map Some vs -> collect field batch = Some vs.
Proof.
  revert vs. induction batch as [| item batch IH]; intros [| v vs] Hmap;
    simpl in *; try discriminate; [reflexivity |].
  injection Hmap as Hitem Hrest.
  rewrite Hitem, (IH vs Hrest). reflexivity.
Qed.

(** C8. On a non-empty batch whose examples all carry the two decoder
    sequences, [normal_collate_fn] returns; each of the four id and mask
    fields holds the rows of the batch in the order of the examples, each
    row filled on the right with 0 up to the longest row of that field, so
    all rows of a field have one length; the initial decoder inputs are the
    start token ids of the examples in the same order. *)
Theorem normal_collate_fn_pads (batch : list example)
    (dec_in dec_tgt : list (list Z)) :
  batch <> [] ->
  map decoder_input_ids batch = map Some dec_in ->
  map decoder_target_ids batch = map Some dec_tgt ->
  exists encoder_ids encoder_masks decoder_inputs decoder_targets,
    normal_collate_fn batch =
      Some (encoder_ids, encoder_masks, decoder_inputs, decoder_targets,
            map decoder_start_token batch) /\
    right_padded 0 (map encoder_input_ids batch) encoder_ids /\
    right_padded 0 (map encoder_attention_mask batch) encoder_masks /\
    right_padded 0 dec_in decoder_inputs /\
    right_padded 0 dec_tgt decoder_targets.
Proof.
  intros Hne Hin Htgt.
  assert (Hrows : forall (A B : Type) (f : A -> B) (l : list A),
             l <> [] -> map f l <> []).
  { intros A B f [| a l] Hl; [contradiction | discriminate]. }
  assert (Hdin : dec_in <> []).
  { intros ->. destruct batch; [contradiction | discriminate]. }
  assert (Hdtgt : dec_tgt <> []).
  { intros ->. destruct batch; [contradiction | discriminate]. }
  destruct (pad_sequence_spec 0 (map encoder_input_ids batch)
              (Hrows _ _ _ _ Hne)) as [ei [Hei Pei]].
  destruct (pad_sequence_spec 0 (map encoder_attention_mask batch)
              (Hrows _ _ _ _ Hne)) as [em [Hem Pem]].
  destruct (pad_sequence_spec 0 dec_in Hdin) as [di [Hdi Pdi]].
  destruct (pad_sequence_spec 0 dec_tgt Hdtgt) as [dt [Hdt Pdt]].
  exists ei, em, di, dt.
  unfold normal_collate_fn.
  rewrite (collect_present _ _ _ Hin), (collect_present _ _ _ Htgt).
  unfold PAD_IDX. rewrite Hei, Hem, Hdi, Hdt.
  split; [reflexivity |].
  repeat (split; [assumption |]). assumption.
Qed.

Definition sample_batch : list example :=
  [ {| encoder_input_ids := [5; 6; 7]%Z; encoder_attention_mask := [1; 1; 1]%Z;
       decoder_input_ids := Some [9; 4]%Z; decoder_target_ids := Some [4; 1]%Z;
       decoder_start_token := 9%Z |};
    {| encoder_input_ids := [8]%Z; encoder_attention_mask := [1]%Z;
       decoder_input_ids := Some [9; 2; 3]%Z;
       decoder_target_ids := Some [2; 3; 1]%Z;
       decoder_start_token := 9%Z |} ].

Lemma normal_collate_fn_pads_witness :
  exists encoder_ids encoder_masks decoder_inputs decoder_targets,
    normal_collate_fn sample_batch =
      Some (encoder_ids, encoder_masks, decoder_inputs, decoder_targets,
            map decoder_start_token sample_batch) /\
    right_padded 0 (map encoder_input_ids sample_batch) encoder_ids /\
    right_padded 0 (map encoder_attention_mask sample_batch) encoder_masks /\
    right_padded 0 [[9; 4]; [9; 2; 3]]%Z decoder_inputs /\
    right_padded 0 [[4; 1]; [2; 3; 1]]%Z decoder_targets.
Proof.
  apply (normal_collate_fn_pads sample_batch
           [[9; 4]; [9; 2; 3]]%Z [[4; 1]; [2; 3; 1]]%Z).
  - discriminate.
  - reflexivity.
  - reflexivity.
Defined.

Example normal_collate_fn_sample :
  normal_collate_fn sample_batch =
    Some ([[5; 6; 7]; [8; 0; 0]], [[1; 1; 1]; [1; 0; 0]],
          [[9; 4; 0]; [9; 2; 3]], [[4; 1; 0]; [2; 3; 1]], [9; 9])%Z.
Proof. reflexivity. Qed.

(* ================================================================= *)
(** ** Properties of the evaluation glue *)

Lemma count_errors_filter (error_msgs : list str) :
  count_errors error_msgs = Z.of_nat (length (filter truthy error_msgs)).
Proof.
  induction error_msgs as [| msg rest IH]; [reflexivity |].
  cbn [count_errors filter]. destruct (truthy msg); [| exact IH].
  rewrite IH. cbn [length]. lia.
Qed.

(** C9. [eval_outputs] returns the metrics of the external call together
    with an error rate: 0 when the list of error messages is empty, and
    otherwise the number of its non-empty messages divided by its length.
    The quotient itself is undefined for a zero divisor, so the guard is
    what keeps the empty list from raising. *)
Theorem eval_outputs_error_rate (path metric : Type)
    (compute_metrics :
       path -> path -> path -> path -> metric * metric * metric * list str)
    (gt_sql model_sql gt_rec model_rec : path) (queries : list str) :
  let metrics := compute_metrics gt_sql model_sql gt_rec model_rec in
  let error_msgs := snd metrics in
  eval_outputs path metric compute_metrics gt_sql model_sql gt_rec model_rec
    queries =
    Some (metrics,
          match error_msgs with
          | [] => inject_Z 0
          | _ :: _ =>
              (inject_Z (Z.of_nat (length (filter truthy error_msgs)))
               / inject_Z (Z.of_nat (length error_msgs)))%Q
          end) /\
  error_rate_of [] = Some (inject_Z 0) /\
  truediv (count_errors []) (Z.of_nat (length (@nil str))) = None.
Proof.
  intros metrics error_msgs. split; [| split; reflexivity].
  unfold eval_outputs. subst error_msgs metrics.
  destruct (compute_metrics gt_sql model_sql gt_rec model_rec)
    as [[[sql_em record_em] record_f1] msgs].
  simpl snd. unfold error_rate_of.
  destruct msgs as [| msg rest]; [reflexivity |].
  assert (Hpos : (Z.of_nat (length (msg :: rest)) >? 0)%Z = true).
  { simpl length. apply Z.gtb_lt. lia. }
  rewrite Hpos. unfold truediv.
  assert (Hnz : (Z.of_nat (length (msg :: rest)) =? 0)%Z = false).
  { simpl length. apply Z.eqb_neq. lia. }
  rewrite Hnz, count_errors_filter. reflexivity.
Qed.

Example error_rate_one_of_two :
  error_rate_of [lit "no such table"; []] = Some (inject_Z 1 / inject_Z 2)%Q.
Proof. reflexivity. Qed.

(* ================================================================= *)
(** ** Properties of prompt assembly *)

(** The line that the last instruction variant adds for a schema. *)
Definition schema_line (schema : option str) : str :=
  match schema with
  | Some (c :: sc) => lit "Schema: " ++ firstn 300 (c :: sc) ++ nl ++ nl
  | _ => []
  end.

(** The block of one in-context example. *)
Definition example_block (pair : str * str) : str :=
  fst pair ++ nl ++ example_sql (snd pair) ++ nl ++ nl.

(** The number of semicolons a string ends in. *)
Fixpoint leading_semicolons (s : str) : nat :=
  match s with
  | [] => 0
  | c :: s' => if Ascii.eqb c ";" then S (leading_semicolons s') else 0
  end.

Definition trailing_semicolons (s : str) : nat := leading_semicolons (rev s).

Lemma add_examples_blocks (tx ty : list str) (n start : nat) (instruct : str) :
  start + n <= length tx ->
  start + n <= length ty ->
  add_examples (seq start n) (Some tx) (Some ty) instruct =
    Some (instruct
          ++ concat (map example_block
                       (firstn n (skipn start (combine tx ty))))).
Proof.
  revert start instruct.
  induction n as [| n IH]; intros start instruct Hx Hy.
  - simpl. rewrite app_nil_r. reflexivity.
  - simpl seq. simpl add_examples.
    destruct (nth_error ty start) as [y |] eqn:Ey;
      [| apply nth_error_None in Ey; lia].
    destruct (nth_error tx start) as [x |] eqn:Ex;
      [| apply nth_error_None in Ex; lia].
    rewrite IH by lia.
    assert (Hskip : skipn start (combine tx ty)
                    = (x, y) :: skipn (S start) (combine tx ty)).
    { clear - Ex Ey. revert tx ty Ex Ey.
      induction start as [| start IHs]; intros [| a tx] [| b ty] Ex Ey;
        simpl in *; try discriminate.
      - congruence.
      - apply IHs; assumption. }
    rewrite Hskip. simpl. unfold example_block at 2. simpl.
    repeat rewrite <- app_assoc. reflexivity.
Qed.

Lemma instruction_variant2 (schema : option str) (ptype : Z) :
  ptype <> 0%Z -> ptype <> 1%Z ->
  instruction schema ptype = INSTRUCT2 ++ schema_line schema.
Proof.
  intros H0 H1. unfold instruction.
  apply Z.eqb_neq in H0. apply Z.eqb_neq in H1. rewrite H0, H1.
  destruct schema as [[| c sc] |]; simpl truthy; cbv iota;
    unfold schema_line; try (rewrite app_nil_r; reflexivity).
  reflexivity.
Qed.

(** C10. For every prompt type other than 0 and 1, [create_prompt] builds
    what it builds for prompt type 2: the third instruction text, then,
    exactly when a non-empty schema is given, the line "Schema: " with the
    first 300 characters of the schema at most and a blank line; a missing
    or empty schema adds nothing.  With no example, the target sentence
    follows directly. *)
Theorem create_prompt_default_variant (sentence : str) (k : Z)
    (train_x train_y : option (list str)) (schema : option str) (ptype : Z) :
  ptype <> 0%Z -> ptype <> 1%Z ->
  create_prompt sentence k train_x train_y schema ptype =
    create_prompt sentence k train_x train_y schema 2 /\
  instruction schema ptype = INSTRUCT2 ++ schema_line schema /\
  create_prompt sentence 0 train_x train_y schema ptype =
    Some (INSTRUCT2 ++ schema_line schema ++ sentence) /\
  schema_line None = [] /\
  schema_line (Some []) = [] /\
  (forall c sc,
     exists excerpt,
       schema_line (Some (c :: sc)) = lit "Schema: " ++ excerpt ++ nl ++ nl /\
       excerpt = firstn 300 (c :: sc) /\
       length excerpt <= 300 /\
       (length (c :: sc) <= 300 -> excerpt = c :: sc)).
Proof.
  intros H0 H1.
  pose proof (instruction_variant2 schema ptype H0 H1) as Hi.
  assert (H2 : instruction schema 2 = INSTRUCT2 ++ schema_line schema)
    by (apply instruction_variant2; discriminate).
  split; [| split; [exact Hi | split; [| split; [| split]]]].
  - unfold create_prompt. rewrite Hi, H2. reflexivity.
  - unfold create_prompt. rewrite Hi. simpl andb. cbv iota.
    rewrite <- app_assoc. reflexivity.
  - reflexivity.
  - reflexivity.
  - intros c sc. exists (firstn 300 (c :: sc)).
    split; [reflexivity | split; [reflexivity | split]].
    + apply firstn_le_length.
    + intros Hle. apply firstn_all2. exact Hle.
Qed.

Lemma create_prompt_default_variant_witness :
  create_prompt (lit "list all airports") 0 None None (Some (lit "flight(id)")) 7 =
    Some (INSTRUCT2 ++ schema_line (Some (lit "flight(id)"))
          ++ lit "list all airports").
Proof.
  apply (create_prompt_default_variant (lit "list all airports") 0 None None
           (Some (lit "flight(id)")) 7); discriminate.
Defined.

Lemma example_sql_cases (y : str) :
  (endswith_char (strip y) ";" = true /\ example_sql y = strip y) \/
  (endswith_char (strip y) ";" = false /\ example_sql y = strip y ++ [";"]).
Proof.
  unfold example_sql.
  destruct (endswith_char (strip y) ";"); [left | right]; split; reflexivity.
Qed.

Lemma trailing_semicolons_example_sql (y : str) :
  trailing_semicolons (example_sql y)
  = Nat.max 1 (trailing_semicolons (strip y)).
Proof.
  unfold example_sql, endswith_char, trailing_semicolons.
  destruct (rev (strip y)) as [| d r] eqn:Erev.
  - simpl negb. cbv iota. rewrite rev_app_distr, Erev. reflexivity.
  - destruct (Ascii.eqb d ";") eqn:Ed; simpl negb; cbv iota.
    + rewrite Erev. simpl. rewrite Ed. reflexivity.
    + rewrite rev_app_distr, Erev. simpl. rewrite Ed. reflexivity.
Qed.

Lemma add_examples_index_error (tx ty : list str) (n start : nat)
    (instruct : str) :
  start + n <= length tx ->
  start <= length ty ->
  length ty < start + n ->
  add_examples (seq start n) (Some tx) (Some ty) instruct = None.
Proof.
  revert start instruct.
  induction n as [| n IH]; intros start instruct Hx Hs Hy; [lia |].
  simpl seq. simpl add_examples.
  destruct (nth_error ty start) as [y |] eqn:Ey; [| reflexivity].
  destruct (nth_error tx start) as [x |] eqn:Ex;
    [| apply nth_error_None in Ex; lia].
  assert (start < length ty) by (apply nth_error_Some; congruence).
  apply IH; lia.
Qed.

(** The statement of the specification on the in-context examples, read
    for all non-empty training lists: a prompt is returned, and it holds
    [min k (length train_x)] blocks whose SQL ends in one semicolon. *)
Definition appends_min_k_examples : Prop :=
  forall (sentence : str) (k : Z) (train_x train_y : list str)
         (schema : option str) (ptype : Z),
    (k > 0)%Z -> train_x <> [] -> train_y <> [] ->
    exists blocks : list (str * str),
      create_prompt sentence k (Some train_x) (Some train_y) schema ptype =
        Some (instruction schema ptype
              ++ concat (map (fun b => fst b ++ nl ++ snd b ++ nl ++ nl) blocks)
              ++ sentence) /\
      length blocks = Z.to_nat (Z.min k (Z.of_nat (length train_x))) /\
      Forall (fun b => trailing_semicolons (snd b) = 1) blocks.

Example create_prompt_two_questions_one_query :
  create_prompt (lit "list all airports") 2
    (Some [lit "how many flights?"; lit "which airlines?"])
    (Some [lit "SELECT COUNT(*) FROM flight;"]) None 0 = None.
Proof. reflexivity. Qed.

(** C3, as stated, fails: with two training questions, one training query
    and [k = 2] the loop reads [train_y[1]], which raises. *)
Lemma appends_min_k_examples_fails : ~ appends_min_k_examples.
Proof.
  intros Hall.
  destruct (Hall (lit "list all airports") 2%Z
              [lit "how many flights?"; lit "which airlines?"]
              [lit "SELECT COUNT(*) FROM flight;"] None 0%Z)
    as [blocks [Hprompt _]]; [reflexivity | discriminate | discriminate |].
  rewrite create_prompt_two_questions_one_query in Hprompt. discriminate.
Qed.

(** C3, amended. For [k > 0] and non-empty training lists of which
    [train_y] has at least [min k (length train_x)] entries,
    [create_prompt] returns the instruction text, then exactly
    [min k (length train_x)] blocks for the first pairs of the two lists in
    their order, then the target sentence.  A block is the question, a
    newline, the stripped example SQL with a semicolon appended only when it
    does not end with one, and a blank line; the SQL of a block ends in as
    many semicolons as the stripped example SQL did, and in one when that
    had none. *)
Theorem create_prompt_examples (sentence : str) (k : Z)
    (train_x train_y : list str) (schema : option str) (ptype : Z) :
  (k > 0)%Z -> train_x <> [] -> train_y <> [] ->
  Z.to_nat (Z.min k (Z.of_nat (length train_x))) <= length train_y ->
  let n := Z.to_nat (Z.min k (Z.of_nat (length train_x))) in
  let shots := firstn n (combine train_x train_y) in
  create_prompt sentence k (Some train_x) (Some train_y) schema ptype =
    Some (instruction schema ptype ++ concat (map example_block shots)
          ++ sentence) /\
  length shots = n /\
  n = Nat.min (Z.to_nat k) (length train_x) /\
  Forall (fun shot =>
            example_block shot
            = fst shot ++ nl ++ example_sql (snd shot) ++ nl ++ nl /\
            endswith_char (example_sql (snd shot)) ";" = true /\
            trailing_semicolons (example_sql (snd shot))
            = Nat.max 1 (trailing_semicolons (strip (snd shot))) /\
            ((endswith_char (strip (snd shot)) ";" = true /\
              example_sql (snd shot) = strip (snd shot)) \/
             (endswith_char (strip (snd shot)) ";" = false /\
              example_sql (snd shot) = strip (snd shot) ++ [";"])))
    shots.
Proof.
  intros Hk Hx Hy Hlen n shots.
  assert (Hnx : n <= length train_x) by (subst n; lia).
  assert (Hny : n <= length train_y) by exact Hlen.
  split; [| split; [| split]].
  - unfold create_prompt.
    assert (Hkb : (k >? 0)%Z = true) by (apply Z.gtb_lt; lia).
    rewrite Hkb.
    destruct train_x as [| x tx]; [contradiction |].
    destruct train_y as [| y ty]; [contradiction |].
    cbn [truthy_list andb len_of]. fold n.
    rewrite (add_examples_blocks (x :: tx) (y :: ty) n 0)
      by (cbn [Nat.add]; assumption).
    rewrite skipn_O. fold shots. rewrite <- app_assoc. reflexivity.
  - subst shots. rewrite firstn_length_le; [reflexivity |].
    rewrite length_combine. lia.
  - subst n. lia.
  - apply Forall_forall. intros shot _.
    split; [reflexivity | split; [| split]].
    + destruct (example_sql_cases (snd shot)) as [[He Hs] | [He Hs]];
        rewrite Hs; [exact He |].
      unfold endswith_char. rewrite rev_app_distr. reflexivity.
    + apply trailing_semicolons_example_sql.
    + apply example_sql_cases.
Qed.

Lemma create_prompt_examples_witness :
  create_prompt (lit "list all airports") 1
    (Some [lit "how many flights?"])
    (Some [lit "SELECT COUNT(*) FROM flight;"]) None 0 =
  Some (instruction None 0
        ++ concat (map example_block
                     [(lit "how many flights?",
                       lit "SELECT COUNT(*) FROM flight;")])
        ++ lit "list all airports").
Proof.
  apply (create_prompt_examples (lit "list all airports") 1
           [lit "how many flights?"] [lit "SELECT COUNT(*) FROM flight;"]
           None 0).
  - reflexivity.
  - discriminate.
  - discriminate.
  - vm_compute. lia.
Defined.

Example create_prompt_end_to_end :
  create_prompt (lit "list all airports") 1
    (Some [lit "how many flights?"])
    (Some [lit "SELECT COUNT(*) FROM flight;"]) None 0 =
  Some (INSTRUCT0 ++ lit "how many flights?" ++ nl
        ++ lit "SELECT COUNT(*) FROM flight;" ++ nl ++ nl
        ++ lit "list all airports").
Proof. reflexivity. Qed.

(** With fewer training queries than examples to show, the loop raises. *)
Lemma create_prompt_index_error (sentence : str) (k : Z)
    (train_x train_y : list str) (schema : option str) (ptype : Z) :
  (k > 0)%Z -> train_x <> [] -> train_y <> [] ->
  length train_y < Z.to_nat (Z.min k (Z.of_nat (length train_x))) ->
  create_prompt sentence k (Some train_x) (Some train_y) schema ptype = None.
Proof.
  intros Hk Hx Hy Hlen. unfold create_prompt.
  assert (Hkb : (k >? 0)%Z = true) by (apply Z.gtb_lt; lia).
  rewrite Hkb.
  destruct train_x as [| x tx]; [contradiction |].
  destruct train_y as [| y ty]; [contradiction |].
  cbn [truthy_list andb len_of].
  rewrite add_examples_index_error; [reflexivity | | |]; simpl in *; lia.
Qed.

(* ================================================================= *)
(** ** Properties of the generation loop *)

(** The responses of the loop, from index [i] on: the decoded output of
    each prompt after [strip_prompt]. *)
Definition responses_from (generate : nat -> str -> str) (i : nat)
    (prompts : list str) : list str :=
  map (fun jp => strip_prompt (snd jp) (generate (fst jp) (snd jp)))
    (combine (seq i (length prompts)) prompts).

(** Every ground truth read by the diagnostics from input [i] on is in
    range, for [n] inputs. *)
Definition ground_truth_in_range (i n : nat) (ground_truth : option (list str))
    : Prop :=
  truthy_list ground_truth = true ->
  forall j, j < n -> i + j < 5 -> i + j < len_of ground_truth.

Lemma read_ground_truth_Some (i : nat) (ground_truth : option (list str)) :
  (truthy_list ground_truth = true -> i < 5 -> i < len_of ground_truth) ->
  read_ground_truth i ground_truth = Some tt.
Proof.
  intros Hin. unfold read_ground_truth.
  destruct (i <? 5) eqn:Hi; [| reflexivity].
  destruct (truthy_list ground_truth) eqn:Ht; [| reflexivity].
  cbn [andb]. apply Nat.ltb_lt in Hi. specialize (Hin eq_refl Hi).
  destruct ground_truth as [gt |]; [| discriminate Ht]. cbn [getitem len_of] in *.
  destruct (nth_error gt i) eqn:Hn; [reflexivity |].
  apply nth_error_None in Hn. lia.
Qed.

Lemma exp_kshot_from_responses (generate : nat -> str -> str) (k : Z)
    (train_x train_y : option (list str)) (schema : option str) (ptype : Z)
    (ground_truth : option (list str)) (inputs prompts : list str) :
  Forall2 (fun sentence prompt =>
             create_prompt sentence k train_x train_y schema ptype
             = Some prompt) inputs prompts ->
  forall (i : nat) (raw extracted : list str),
    ground_truth_in_range i (length inputs) ground_truth ->
    exp_kshot_from generate i inputs k train_x train_y schema ptype
      ground_truth raw extracted =
    Some (raw ++ responses_from generate i prompts,
          extracted
          ++ map extract_sql_query (responses_from generate i prompts)).
Proof.
  induction 1 as [| sentence prompt inputs prompts Hp _ IH];
    intros i raw extracted Hgt.
  - simpl. unfold responses_from. simpl. rewrite !app_nil_r. reflexivity.
  - cbn [exp_kshot_from]. rewrite Hp.
    rewrite read_ground_truth_Some.
    + rewrite IH.
      * unfold responses_from. simpl. rewrite <- !app_assoc. reflexivity.
      * intros Ht j Hj Hj5.
        assert (Hr := Hgt Ht (S j)). cbn [length] in Hr. lia.
    + intros Ht Hi. assert (Hr := Hgt Ht 0). cbn [length] in Hr. lia.
Qed.

(** The statement of the specification on the prompt prefix: the prompt is
    cut off exactly when the decoded output starts with it. *)
Definition strips_prompt_prefix : Prop :=
  forall prompt response : str,
    ((exists rest, response = prompt ++ rest) ->
     strip_prompt prompt response = strip (skipn (length prompt) response)) /\
    (~ (exists rest, response = prompt ++ rest) ->
     strip_prompt prompt response = response).

Example strip_prompt_other_text :
  strip_prompt (lit "Q: count") (lit "SELECT 1 FROM t;") = lit "FROM t;".
Proof. reflexivity. Qed.

Example strip_prompt_nothing_generated :
  strip_prompt (lit "Q: count ") (lit "Q: count ") = lit "Q: count ".
Proof. reflexivity. Qed.

(** C2, as stated, fails: a decoded output that is longer than the prompt
    and does not start with it loses its first [length prompt] characters
    all the same. *)
Lemma strips_prompt_prefix_fails : ~ strips_prompt_prefix.
Proof.
  intros Hall.
  destruct (Hall (lit "Q: count") (lit "SELECT 1 FROM t;")) as [_ Hkeep].
  rewrite strip_prompt_other_text in Hkeep.
  assert (Habs : lit "FROM t;" = lit "SELECT 1 FROM t;");
    [| vm_compute in Habs; discriminate].
  apply Hkeep. intros [rest Hrest]. vm_compute in Hrest. discriminate.
Qed.

(** C2, amended. The loop compares lengths, not text: a decoded output
    longer than the prompt loses its first [length prompt] characters and
    is then stripped of surrounding whitespace, whether or not it starts
    with the prompt; any other output is passed on unchanged.  So an output
    made of the prompt and a non-empty continuation becomes the stripped
    continuation, and an output equal to the prompt stays whole.  What the
    loop records as raw output and passes to [extract_sql_query] is this
    response, for each input in order; this is stated for a run whose
    prompts are all built and whose diagnostics read the ground truth, if
    one is given, within its length. *)
Theorem strip_prompt_by_length (prompt response : str) :
  (length prompt < length response ->
   strip_prompt prompt response = strip (skipn (length prompt) response)) /\
  (length response <= length prompt ->
   strip_prompt prompt response = response) /\
  (forall rest, rest <> [] ->
     strip_prompt prompt (prompt ++ rest) = strip rest) /\
  strip_prompt prompt prompt = prompt /\
  (forall (generate : nat -> str -> str) (k : Z)
          (train_x train_y : option (list str)) (schema : option str)
          (ptype : Z) (ground_truth : option (list str))
          (inputs prompts : list str),
     Forall2 (fun sentence p =>
                create_prompt sentence k train_x train_y schema ptype = Some p)
       inputs prompts ->
     (truthy_list ground_truth = true ->
      Nat.min 5 (length inputs) <= len_of ground_truth) ->
     exp_kshot generate inputs k train_x train_y schema ptype ground_truth =
       Some (responses_from generate 0 prompts,
             map extract_sql_query (responses_from generate 0 prompts))).
Proof.
  unfold strip_prompt. repeat split.
  - intros Hlt. apply Nat.ltb_lt in Hlt. rewrite Hlt. reflexivity.
  - intros Hle. apply Nat.ltb_ge in Hle. rewrite Hle. reflexivity.
  - intros rest Hrest.
    assert (Hlt : (length prompt <? length (prompt ++ rest)) = true).
    { apply Nat.ltb_lt. rewrite length_app.
      destruct rest; [contradiction | simpl; lia]. }
    rewrite Hlt, skipn_app, Nat.sub_diag, skipn_all. reflexivity.
  - rewrite Nat.ltb_irrefl. reflexivity.
  - intros generate k train_x train_y schema ptype ground_truth inputs prompts
      Hall Hgt.
    unfold exp_kshot.
    rewrite (exp_kshot_from_responses _ _ _ _ _ _ ground_truth _ _ Hall);
      [reflexivity |].
    intros Ht j Hj Hj5. specialize (Hgt Ht). lia.
Qed.

Lemma strip_prompt_by_length_witness :
  strip_prompt (lit "Q: count") (lit "Q: count  SELECT 1; ")
  = strip (skipn (length (lit "Q: count")) (lit "Q: count  SELECT 1; ")).
Proof.
  apply (proj1 (strip_prompt_by_length (lit "Q: count")
                  (lit "Q: count  SELECT 1; "))).
  apply Nat.ltb_lt. reflexivity.
Defined.

(* ================================================================= *)
(** ** Facts on the string primitives *)

Lemma strip_prefix_Some (p s rest : str) :
  strip_prefix p s = Some rest <-> s = p ++ rest.
Proof.
  revert s. induction p as [| a p IH]; intros s; simpl.
  - split; [intros [= ->]; reflexivity | intros ->; reflexivity].
  - destruct s as [| b s]; [split; discriminate |].
    destruct (Ascii.eqb_spec a b) as [-> | Hne].
    + rewrite IH. split; [intros ->; reflexivity | intros [= ->]; reflexivity].
    + split; [discriminate | intros [= Hab _]; congruence].
Qed.

Lemma strip_prefix_app (p rest : str) : strip_prefix p (p ++ rest) = Some rest.
Proof. apply strip_prefix_Some. reflexivity. Qed.

Lemma strip_prefix_shorter (a : ascii) (p s rest : str) :
  strip_prefix (a :: p) s = Some rest -> length rest < length s.
Proof.
  intros H. apply strip_prefix_Some in H. subst s.
  simpl. rewrite length_app. lia.
Qed.

Lemma strip_prefix_ci_Some (p s m rest : str) :
  strip_prefix_ci p s = Some (m, rest) <->
  s = m ++ rest /\ upper m = upper p.
Proof.
  revert s m rest. induction p as [| a p IH]; intros s m rest; simpl.
  - split.
    + intros [= <- <-]. split; reflexivity.
    + intros [-> Hm]. destruct m; [reflexivity | discriminate].
  - destruct s as [| b s].
    + split; [discriminate |]. intros [Hs Hm].
      destruct m; [discriminate | discriminate].
    + unfold ci_eqb. destruct (Ascii.eqb_spec (upper_char a) (upper_char b))
        as [Hab | Hne].
      * destruct (strip_prefix_ci p s) as [[m' rest'] |] eqn:Hrec.
        -- apply IH in Hrec. destruct Hrec as [-> Hm'].
           split.
           ++ intros [= <- <-]. simpl. rewrite Hm', Hab. split; reflexivity.
           ++ intros [Hs Hm]. destruct m as [| c m]; [discriminate |].
              simpl in Hs, Hm. injection Hs as <- Hs. injection Hm as _ Hm.
              assert (Hrec : strip_prefix_ci p (m' ++ rest') = Some (m, rest))
                by (apply IH; split; assumption).
              assert (Hrec' : strip_prefix_ci p (m' ++ rest') = Some (m', rest'))
                by (apply IH; split; [reflexivity | assumption]).
              rewrite Hrec in Hrec'. injection Hrec' as -> ->. reflexivity.
        -- split; [discriminate |]. intros [Hs Hm].
           destruct m as [| c m]; [discriminate |].
           simpl in Hs, Hm. injection Hs as <- Hs. injection Hm as _ Hm.
           assert (Hrec' : strip_prefix_ci p s = Some (m, rest))
             by (apply IH; split; assumption).
           rewrite Hrec in Hrec'. discriminate Hrec'.
      * split; [discriminate |]. intros [Hs Hm].
        destruct m as [| c m]; [discriminate |].
        simpl in Hs, Hm. injection Hs as <- Hs. injection Hm as Hc Hm.
        congruence.
Qed.

Lemma upper_app (a b : str) : upper (a ++ b) = upper a ++ upper b.
Proof. apply map_app. Qed.

Lemma upper_length (s : str) : length (upper s) = length s.
Proof. apply length_map. Qed.

Lemma upper_char_semicolon (c : ascii) : upper_char c = ";" -> c = ";".
Proof.
  destruct c as [[] [] [] [] [] [] [] []]; vm_compute; intros H;
    first [reflexivity | discriminate H].
Qed.

Lemma upper_char_idempotent (c : ascii) :
  upper_char (upper_char c) = upper_char c.
Proof. destruct c as [[] [] [] [] [] [] [] []]; reflexivity. Qed.

Lemma upper_idempotent (s : str) : upper (upper s) = upper s.
Proof.
  unfold upper. rewrite map_map. apply map_ext. apply upper_char_idempotent.
Qed.

(** *** Steps that only remove characters, or put spaces *)

Lemma sub_fences_fuel_S (n : nat) (s : str) :
  sub_fences_fuel (S n) s =
    match strip_prefix (lit "```") s with
    | Some rest =>
        match strip_prefix_ci (lit "sql") rest with
        | Some (_, rest') => sub_fences_fuel n rest'
        | None => sub_fences_fuel n rest
        end
    | None => match s with
              | [] => []
              | c :: s' => c :: sub_fences_fuel n s'
              end
    end.
Proof. reflexivity. Qed.

Section Preserved.

Variable P : ascii -> Prop.

Lemma replace_fuel_Forall (n : nat) (old new s : str) :
  Forall P new -> Forall P s -> Forall P (replace_fuel n old new s).
Proof.
  intros Hnew. revert s. induction n as [| n IH]; intros s Hs;
    [exact Hs |].
  simpl. destruct (strip_prefix old s) as [rest |] eqn:Hp.
  - apply strip_prefix_Some in Hp. subst s.
    apply Forall_app in Hs. destruct Hs as [_ Hrest].
    apply Forall_app. split; [exact Hnew | apply IH; exact Hrest].
  - destruct s as [| c s]; [constructor |].
    inversion Hs; subst. constructor; [assumption | apply IH; assumption].
Qed.

Lemma replace_Forall (old new s : str) :
  Forall P new -> Forall P s -> Forall P (replace old new s).
Proof. apply replace_fuel_Forall. Qed.

Lemma split_fuel_Forall (n : nat) (sep cur s : str) :
  Forall P cur -> Forall P s -> Forall (Forall P) (split_fuel n sep cur s).
Proof.
  revert cur s. induction n as [| n IH]; intros cur s Hcur Hs; simpl.
  - constructor; [| constructor].
    apply Forall_app. split; [apply Forall_rev; exact Hcur | exact Hs].
  - destruct (strip_prefix sep s) as [rest |] eqn:Hp.
    + apply strip_prefix_Some in Hp. subst s.
      apply Forall_app in Hs. destruct Hs as [_ Hrest].
      constructor; [apply Forall_rev; exact Hcur |].
      apply IH; [constructor | exact Hrest].
    + destruct s as [| c s].
      * constructor; [apply Forall_rev; exact Hcur | constructor].
      * inversion Hs; subst. apply IH; [constructor |]; assumption.
Qed.

Lemma last_Forall (parts : list str) :
  Forall (Forall P) parts -> Forall P (last parts []).
Proof.
  induction 1 as [| part parts Hpart _ IH]; [constructor |].
  destruct parts as [| part' parts]; [exact Hpart | exact IH].
Qed.

Lemma strip_prefix_ci_Forall (p s m rest : str) :
  strip_prefix_ci p s = Some (m, rest) -> Forall P s -> Forall P rest.
Proof.
  intros Hp Hs. apply strip_prefix_ci_Some in Hp. destruct Hp as [-> _].
  apply Forall_app in Hs. tauto.
Qed.

Lemma sub_fences_fuel_Forall (n : nat) (s : str) :
  Forall P s -> Forall P (sub_fences_fuel n s).
Proof.
  revert s. induction n as [| n IH]; intros s Hs; [exact Hs |].
  rewrite sub_fences_fuel_S.
  destruct (strip_prefix (lit "```") s) as [rest |] eqn:Hp.
  - apply strip_prefix_Some in Hp. subst s.
    apply Forall_app in Hs. destruct Hs as [_ Hrest].
    destruct (strip_prefix_ci (lit "sql") rest) as [[m rest'] |] eqn:Hq.
    + apply IH. exact (strip_prefix_ci_Forall _ _ _ _ Hq Hrest).
    + apply IH. exact Hrest.
  - destruct s as [| c s]; [constructor |].
    inversion Hs; subst. constructor; [assumption | apply IH; assumption].
Qed.

Lemma sub_ws_Forall (in_run : bool) (s : str) :
  P " " -> Forall P s -> Forall P (sub_ws in_run s).
Proof.
  intros Hsp Hs. revert in_run.
  induction Hs as [| c s Hc _ IH]; intros in_run; simpl; [constructor |].
  destruct (is_space c); [destruct in_run |]; try constructor; auto.
Qed.

Lemma lstrip_Forall (s : str) : Forall P s -> Forall P (lstrip s).
Proof.
  induction 1 as [| c s Hc Hs IH]; simpl; [constructor |].
  destruct (is_space c); [exact IH | constructor; assumption].
Qed.

Lemma strip_Forall (s : str) : Forall P s -> Forall P (strip s).
Proof.
  intros Hs. unfold strip, rstrip.
  apply Forall_rev, lstrip_Forall, Forall_rev, lstrip_Forall, Hs.
Qed.

Lemma clean_query_Forall (q : str) :
  P " " -> Forall P q -> Forall P (clean_query q).
Proof.
  intros Hsp Hq. unfold clean_query.
  apply strip_Forall, sub_ws_Forall; [exact Hsp |].
  apply replace_Forall; [repeat constructor; exact Hsp |].
  apply sub_fences_fuel_Forall, Hq.
Qed.

End Preserved.

Lemma upper_no_semicolon (s : str) :
  Forall (fun c => c <> ";") s -> Forall (fun c => c <> ";") (upper s).
Proof.
  intros Hs. unfold upper. apply Forall_map.
  eapply Forall_impl; [| exact Hs].
  intros c Hc Hu. apply Hc, upper_char_semicolon, Hu.
Qed.

(** *** The search for a statement *)

Lemma through_semicolon_sound (s m : str) :
  through_semicolon s = Some m ->
  exists body post, m = body ++ [";"] /\ s = m ++ post /\ ~ In ";" body.
Proof.
  revert m. induction s as [| c s IH]; intros m; simpl; [discriminate |].
  destruct (Ascii.eqb_spec c ";") as [-> | Hc].
  - intros [= <-]. exists [], s. repeat split. intros [].
  - destruct (through_semicolon s) as [m' |]; [| discriminate].
    intros [= <-].
    destruct (IH m' eq_refl) as [body [post [-> [-> Hno]]]].
    exists (c :: body), post. repeat split.
    intros [Hin | Hin]; [congruence | contradiction].
Qed.

Lemma through_semicolon_complete (body post : str) :
  ~ In ";" body ->
  through_semicolon (body ++ ";" :: post) = Some (body ++ [";"]).
Proof.
  induction body as [| c body IH]; intros Hno; simpl.
  - reflexivity.
  - destruct (Ascii.eqb_spec c ";") as [-> | Hc].
    + exfalso. apply Hno. left. reflexivity.
    + rewrite IH; [reflexivity |]. intros Hin. apply Hno. right. exact Hin.
Qed.

(** Both sides of an equation between concatenations, right-nested. *)
Ltac app_normalize :=
  repeat first [rewrite <- app_assoc | progress cbn [app]].

(** What the pattern [SELECT\s+.*?;] matches: the keyword in any case, a
    whitespace character, then everything up to the first semicolon. *)
Definition select_statement (m : str) : Prop :=
  exists kw w body,
    m = kw ++ w :: body ++ [";"] /\
    upper kw = lit "SELECT" /\
    is_space w = true /\
    ~ In ";" body.

(** No statement of [t] starts before the end of [pre]. *)
Definition no_statement_before (t pre : str) : Prop :=
  forall pre' m' post',
    t = pre' ++ m' ++ post' -> select_statement m' ->
    length pre <= length pre'.

Lemma match_select_here_sound (s m : str) :
  match_select_here s = Some m ->
  select_statement m /\ exists post, s = m ++ post.
Proof.
  unfold match_select_here.
  destruct (strip_prefix_ci (lit "SELECT") s) as [[kw rest] |] eqn:Hkw;
    [| discriminate].
  apply strip_prefix_ci_Some in Hkw. destruct Hkw as [-> Hkw].
  destruct rest as [| w rest]; [discriminate |].
  destruct (is_space w) eqn:Hw; [| discriminate].
  destruct (through_semicolon rest) as [m' |] eqn:Hm'; [| discriminate].
  intros [= <-].
  apply through_semicolon_sound in Hm'.
  destruct Hm' as [body [post [-> [-> Hno]]]].
  split.
  - exists kw, w, body. repeat split; assumption.
  - exists post. app_normalize. reflexivity.
Qed.

Lemma match_select_here_complete (m post : str) :
  select_statement m -> match_select_here (m ++ post) = Some m.
Proof.
  intros [kw [w [body [-> [Hkw [Hw Hno]]]]]].
  unfold match_select_here.
  assert (Hp : strip_prefix_ci (lit "SELECT")
                 ((kw ++ w :: body ++ [";"]) ++ post)
               = Some (kw, w :: body ++ ";" :: post)).
  { apply strip_prefix_ci_Some. split.
    - app_normalize. reflexivity.
    - rewrite Hkw. reflexivity. }
  rewrite Hp, Hw, through_semicolon_complete by exact Hno. reflexivity.
Qed.

Lemma re_search_select_eq (s : str) :
  re_search_select s =
    match match_select_here s with
    | Some m => Some m
    | None => match s with
              | [] => None
              | _ :: s' => re_search_select s'
              end
    end.
Proof. destruct s; reflexivity. Qed.


Lemma re_search_select_sound (t m : str) :
  re_search_select t = Some m ->
  exists pre post,
    t = pre ++ m ++ post /\ select_statement m /\ no_statement_before t pre.
Proof.
  revert m. induction t as [| c t IH]; intros m; rewrite re_search_select_eq.
  - destruct (match_select_here []) as [m0 |] eqn:H0; [| discriminate].
    apply match_select_here_sound in H0. destruct H0 as [Hm0 [post Hs]].
    intros [= <-]. exists [], post. repeat split; try assumption.
    intros pre' m' post' _ _. simpl. lia.
  - destruct (match_select_here (c :: t)) as [m0 |] eqn:H0.
    + apply match_select_here_sound in H0. destruct H0 as [Hm0 [post Hs]].
      intros [= <-]. exists [], post. repeat split; try assumption.
      intros pre' m' post' _ _. simpl. lia.
    + intros Hrec. destruct (IH m Hrec) as [pre [post [-> [Hm Hfirst]]]].
      exists (c :: pre), post. repeat split; try assumption.
      intros pre' m' post' Hs Hm'.
      destruct pre' as [| c' pre'].
      * simpl in Hs. rewrite Hs, match_select_here_complete in H0
          by exact Hm'. discriminate.
      * injection Hs as _ Hs. specialize (Hfirst pre' m' post' Hs Hm').
        simpl. lia.
Qed.


Lemma re_search_select_no_semicolon (t : str) :
  Forall (fun c => c <> ";") t -> re_search_select t = None.
Proof.
  intros Hno. destruct (re_search_select t) as [m |] eqn:Hs; [| reflexivity].
  apply re_search_select_sound in Hs.
  destruct Hs as [pre [post [-> [[kw [w [body [-> _]]]] _]]]].
  rewrite Forall_forall in Hno. exfalso.
  apply (Hno ";"); [| reflexivity].
  apply in_or_app. right. apply in_or_app. left.
  apply in_or_app. right. right. apply in_or_app. right. left. reflexivity.
Qed.


(* ================================================================= *)
(** ** Properties of SQL extraction *)

Lemma strip_special_tokens_Forall (P : ascii -> Prop) (response : str) :
  Forall P response -> Forall P (strip_special_tokens response).
Proof.
  intros H. unfold strip_special_tokens.
  repeat (apply replace_Forall; [constructor |]). exact H.
Qed.

Lemma cut_at_label_no_semicolon (t : str) :
  Forall (fun c => c <> ";") t -> Forall (fun c => c <> ";") (cut_at_label t).
Proof.
  intros H. unfold cut_at_label.
  destruct (contains (lit "SQL:") (upper t)); [| exact H].
  apply last_Forall, split_fuel_Forall;
    [constructor | apply upper_no_semicolon, H].
Qed.

Lemma endswith_char_In (s : str) (c : ascii) :
  endswith_char s c = true -> In c s.
Proof.
  unfold endswith_char. destruct (rev s) as [| d r] eqn:Hrev; [discriminate |].
  intros Hd. apply Ascii.eqb_eq in Hd. subst d.
  apply in_rev. rewrite Hrev. left. reflexivity.
Qed.

Lemma endswith_char_snoc (s : str) (c : ascii) :
  endswith_char (s ++ [c]) c = true.
Proof.
  unfold endswith_char. rewrite rev_app_distr. simpl. apply Ascii.eqb_refl.
Qed.

Lemma trailing_semicolons_snoc (s : str) :
  trailing_semicolons (s ++ [";"]) = S (trailing_semicolons s).
Proof. unfold trailing_semicolons. rewrite rev_app_distr. reflexivity. Qed.

Lemma trailing_semicolons_none (s : str) :
  endswith_char s ";" = false -> trailing_semicolons s = 0.
Proof.
  unfold endswith_char, trailing_semicolons.
  destruct (rev s) as [| d r]; [reflexivity |].
  simpl. intros ->. reflexivity.
Qed.

Lemma terminate_cases (query : str) :
  (query <> [] /\ endswith_char query ";" = false /\
   terminate query = query ++ [";"]) \/
  ((query = [] \/ endswith_char query ";" = true) /\ terminate query = query).
Proof.
  unfold terminate. destruct query as [| c q].
  - right. split; [left |]; reflexivity.
  - cbn [truthy andb].
    destruct (endswith_char (c :: q) ";") eqn:He; cbn [negb].
    + right. split; [right |]; reflexivity.
    + left. repeat split. discriminate.
Qed.

Lemma terminate_terminated (query : str) :
  (query = [] -> terminate query = []) /\
  (query <> [] -> endswith_char (terminate query) ";" = true).
Proof.
  destruct (terminate_cases query) as [[Hne [He Ht]] | [[Hq | He] Ht]];
    rewrite Ht; split; intros H; try congruence.
  - apply endswith_char_snoc.
Qed.

(** C6. When the cleaned query is non-empty and does not end with a
    semicolon, the result is the cleaned query with one semicolon appended,
    and it ends in exactly one semicolon; when the cleaned query is empty or
    ends with a semicolon already, nothing is appended.  For a response
    that holds no semicolon at all, a non-empty result is a text without
    semicolon followed by one semicolon. *)
Theorem extract_sql_query_one_semicolon (response : str) :
  let query :=
    clean_query (select_candidate (cut_at_label (strip_special_tokens response))) in
  (query <> [] -> endswith_char query ";" = false ->
   extract_sql_query response = query ++ [";"] /\
   trailing_semicolons (extract_sql_query response) = 1) /\
  (query = [] \/ endswith_char query ";" = true ->
   extract_sql_query response = query) /\
  (~ In ";" response -> extract_sql_query response <> [] ->
   exists q, extract_sql_query response = q ++ [";"] /\ ~ In ";" q /\
             trailing_semicolons (extract_sql_query response) = 1).
Proof.
  intros query.
  assert (Hext : extract_sql_query response = terminate query) by reflexivity.
  assert (Happ : query <> [] -> endswith_char query ";" = false ->
                 extract_sql_query response = query ++ [";"] /\
                 trailing_semicolons (extract_sql_query response) = 1).
  { intros Hne He. rewrite Hext.
    destruct (terminate_cases query) as [[_ [_ Ht]] | [[Hq | He'] _]];
      [| contradiction | congruence].
    rewrite Ht, trailing_semicolons_snoc, trailing_semicolons_none by exact He.
    split; reflexivity. }
  split; [exact Happ | split].
  - intros Hcase. rewrite Hext.
    destruct (terminate_cases query) as [[Hne [He Ht]] | [_ Ht]]; [| exact Ht].
    destruct Hcase as [Hq | He']; [contradiction | congruence].
  - intros Hno Hout.
    assert (Hquery : Forall (fun c => c <> ";") query).
    { subst query. apply clean_query_Forall; [discriminate |].
      assert (Hcut : Forall (fun c => c <> ";")
                       (cut_at_label (strip_special_tokens response))).
      { apply cut_at_label_no_semicolon, strip_special_tokens_Forall.
        apply Forall_forall. intros c Hc ->. exact (Hno Hc). }
      unfold select_candidate.
      rewrite (re_search_select_no_semicolon _ Hcut). exact Hcut. }
    assert (He : endswith_char query ";" = false).
    { destruct (endswith_char query ";") eqn:He; [| reflexivity].
      apply endswith_char_In in He. rewrite Forall_forall in Hquery.
      exfalso. exact (Hquery _ He eq_refl). }
    assert (Hne : query <> []).
    { intros Hq. apply Hout. rewrite Hext, Hq. reflexivity. }
    destruct (Happ Hne He) as [Hq Hone].
    exists query. repeat split; [exact Hq | | exact Hone].
    intros Hin. rewrite Forall_forall in Hquery. exact (Hquery _ Hin eq_refl).
Qed.

Lemma extract_sql_query_one_semicolon_witness :
  exists q, extract_sql_query (lit "show me  all flights") = q ++ [";"] /\
            ~ In ";" q /\
            trailing_semicolons (extract_sql_query (lit "show me  all flights"))
            = 1.
Proof.
  apply (proj2 (proj2 (extract_sql_query_one_semicolon
                         (lit "show me  all flights")))).
  - vm_compute. intuition discriminate.
  - vm_compute. discriminate.
Defined.

Example extract_sql_query_no_semicolon :
  extract_sql_query (lit "show me  all flights") = lit "show me all flights;".
Proof. reflexivity. Qed.

Example extract_sql_query_not_sql :
  extract_sql_query (lit "Sorry, I do not know") = lit "Sorry, I do not know;".
Proof. reflexivity. Qed.

(** The keyword must be followed by whitespace for the search to match. *)
Example extract_sql_query_bare_keyword :
  extract_sql_query (lit "I cannot select; sorry") = lit "I cannot select; sorry;".
Proof. reflexivity. Qed.

(** *** The label "SQL:" *)

Lemma contains_eq (pat s : str) :
  contains pat s =
    match strip_prefix pat s with
    | Some _ => true
    | None => match s with
              | [] => false
              | _ :: s' => contains pat s'
              end
    end.
Proof. destruct s; reflexivity. Qed.

Lemma contains_occurrence (pat pre post : str) :
  contains pat (pre ++ pat ++ post) = true.
Proof.
  induction pre as [| c pre IH]; rewrite contains_eq.
  - simpl app. rewrite strip_prefix_app. reflexivity.
  - destruct (strip_prefix pat ((c :: pre) ++ pat ++ post)); [reflexivity |].
    exact IH.
Qed.

Lemma contains_true (pat s : str) :
  contains pat s = true -> exists pre post, s = pre ++ pat ++ post.
Proof.
  induction s as [| c s IH]; rewrite contains_eq.
  - destruct (strip_prefix pat []) as [rest |] eqn:Hp; [| discriminate].
    apply strip_prefix_Some in Hp. intros _. exists [], rest. exact Hp.
  - destruct (strip_prefix pat (c :: s)) as [rest |] eqn:Hp.
    + apply strip_prefix_Some in Hp. intros _. exists [], rest. exact Hp.
    + intros Hc. destruct (IH Hc) as [pre [post ->]].
      exists (c :: pre), post. reflexivity.
Qed.

Lemma contains_false_suffix (pat a b : str) :
  contains pat (a ++ b) = false -> contains pat b = false.
Proof.
  intros Hab. destruct (contains pat b) eqn:Hb; [| reflexivity].
  apply contains_true in Hb. destruct Hb as [pre [post ->]].
  rewrite app_assoc, contains_occurrence in Hab. discriminate.
Qed.

(** Every text that holds the pattern holds a last occurrence of it. *)
Lemma contains_last_occurrence (c0 : ascii) (pat s : str) :
  contains (c0 :: pat) s = true ->
  exists pre post,
    s = pre ++ (c0 :: pat) ++ post /\ contains (c0 :: pat) post = false.
Proof.
  induction s as [| c s IH]; rewrite contains_eq.
  - simpl. discriminate.
  - destruct (contains (c0 :: pat) s) eqn:Hs.
    + intros _. destruct (IH eq_refl) as [pre [post [-> Hpost]]].
      exists (c :: pre), post. split; [reflexivity | exact Hpost].
    + destruct (strip_prefix (c0 :: pat) (c :: s)) as [rest |] eqn:Hp;
        [| discriminate].
      intros _. apply strip_prefix_Some in Hp.
      exists [], rest. split; [exact Hp |].
      simpl in Hp. injection Hp as _ ->.
      exact (contains_false_suffix _ _ _ Hs).
Qed.

Lemma split_fuel_S (n : nat) (sep cur s : str) :
  split_fuel (S n) sep cur s =
    match strip_prefix sep s with
    | Some rest => rev cur :: split_fuel n sep [] rest
    | None => match s with
              | [] => [rev cur]
              | c :: s' => split_fuel n sep (c :: cur) s'
              end
    end.
Proof. reflexivity. Qed.

Lemma contains_false_strip_prefix (pat s : str) :
  contains pat s = false -> strip_prefix pat s = None.
Proof.
  rewrite contains_eq. destruct (strip_prefix pat s); [discriminate |].
  reflexivity.
Qed.

(** Without an occurrence of the separator there is one part. *)
Lemma split_fuel_single (n : nat) (sep cur s : str) :
  contains sep s = false -> split_fuel n sep cur s = [rev cur ++ s].
Proof.
  revert cur s. induction n as [| n IH]; intros cur s Hs; [reflexivity |].
  rewrite split_fuel_S, (contains_false_strip_prefix _ _ Hs).
  destruct s as [| c s]; [rewrite app_nil_r; reflexivity |].
  rewrite IH.
  - simpl. rewrite <- app_assoc. reflexivity.
  - rewrite contains_eq in Hs.
    destruct (strip_prefix sep (c :: s)); [discriminate | exact Hs].
Qed.

Lemma last_cons_nonempty {A : Type} (a b : A) (l : list A) (d : A) :
  last (a :: b :: l) d = last (b :: l) d.
Proof. reflexivity. Qed.

Lemma split_fuel_nonempty (n : nat) (sep cur s : str) :
  split_fuel n sep cur s <> [].
Proof.
  revert cur s. induction n as [| n IH]; intros cur s; [discriminate |].
  rewrite split_fuel_S. destruct (strip_prefix sep s); [discriminate |].
  destruct s; [discriminate | apply IH].
Qed.

(** "SQL:" cannot overlap itself, so the parts of a split end where its
    occurrences end, and the last part is what follows the last one. *)
Lemma split_fuel_label_last (n : nat) (cur s pre post : str) :
  length s < n ->
  s = pre ++ lit "SQL:" ++ post ->
  contains (lit "SQL:") post = false ->
  last (split_fuel n (lit "SQL:") cur s) [] = post.
Proof.
  revert cur s pre. induction n as [| n IH]; intros cur s pre Hlen Hs Hpost;
    [lia |].
  rewrite split_fuel_S.
  destruct (strip_prefix (lit "SQL:") s) as [rest |] eqn:Hp.
  - apply strip_prefix_Some in Hp.
    assert (Hrest : length rest < n).
    { rewrite Hp in Hlen. rewrite length_app in Hlen. simpl in Hlen. lia. }
    destruct (split_fuel n (lit "SQL:") [] rest) as [| part parts] eqn:Hparts;
      [exfalso; exact (split_fuel_nonempty _ _ _ _ Hparts) |].
    rewrite last_cons_nonempty, <- Hparts.
    rewrite Hp in Hs.
    destruct pre as [| a [| b [| c [| d pre]]]]; cbn in Hs.
    + injection Hs as ->.
      rewrite (split_fuel_single _ _ _ _ Hpost). reflexivity.
    + discriminate Hs.
    + discriminate Hs.
    + discriminate Hs.
    + injection Hs as _ _ _ _ Hs. apply (IH [] rest pre Hrest Hs Hpost).
  - destruct pre as [| a pre].
    + rewrite Hs, app_nil_l, strip_prefix_app in Hp. discriminate Hp.
    + rewrite Hs. simpl app. apply (IH _ _ pre); [| reflexivity | exact Hpost].
      rewrite Hs in Hlen. simpl in Hlen. lia.
Qed.

Lemma cut_at_label_last (t pre lab post : str) :
  t = pre ++ lab ++ post ->
  upper lab = lit "SQL:" ->
  contains (lit "SQL:") (upper post) = false ->
  cut_at_label t = upper post.
Proof.
  intros -> Hlab Hpost. unfold cut_at_label.
  rewrite !upper_app, Hlab, contains_occurrence.
  unfold split. apply (split_fuel_label_last _ _ _ (upper pre));
    [lia | reflexivity | exact Hpost].
Qed.


Lemma last_label_exists (t pre lab post : str) :
  t = pre ++ lab ++ post ->
  upper lab = lit "SQL:" ->
  exists pre' lab' post',
    t = pre' ++ lab' ++ post' /\
    upper lab' = lit "SQL:" /\
    contains (lit "SQL:") (upper post') = false.
Proof.
  intros Ht Hlab.
  assert (Hc : contains (lit "SQL:") (upper t) = true).
  { rewrite Ht, !upper_app, Hlab. apply contains_occurrence. }
  destruct (contains_last_occurrence "S" (lit "QL:") (upper t) Hc)
    as [upre [upost [Hu Hlast]]].
  change ("S" :: lit "QL:") with (lit "SQL:") in Hu, Hlast.
  unfold upper in Hu. apply map_eq_app in Hu.
  destruct Hu as [pre' [rest [-> [Hpre Hrest]]]].
  apply map_eq_app in Hrest. destruct Hrest as [lab' [post' [-> [Hlab' Hpost']]]].
  exists pre', lab', post'. repeat split; [exact Hlab' |].
  unfold upper. rewrite Hpost'. exact Hlast.
Qed.

Lemma replace_fuel_absent (n : nat) (c0 : ascii) (old new s : str) :
  ~ In c0 s -> replace_fuel n (c0 :: old) new s = s.
Proof.
  revert s. induction n as [| n IH]; intros s Hno; [reflexivity |].
  destruct s as [| c s]; [reflexivity |].
  simpl. destruct (Ascii.eqb_spec c0 c) as [-> | Hne].
  - exfalso. apply Hno. left. reflexivity.
  - rewrite IH; [reflexivity |]. intros Hin. apply Hno. right. exact Hin.
Qed.

(** A response without "<" holds no special-token marker. *)
Lemma strip_special_tokens_id (response : str) :
  ~ In "<" response -> strip_special_tokens response = response.
Proof.
  intros Hno. unfold strip_special_tokens, replace.
  unfold PromptingUtils.BOS, PromptingUtils.EOS.
  change (lit "<bos>") with ("<" :: lit "bos>").
  change (lit "<eos>") with ("<" :: lit "eos>").
  change (lit "<s>") with ("<" :: lit "s>").
  change (lit "</s>") with ("<" :: lit "/s>").
  repeat rewrite (replace_fuel_absent _ _ _ _ _ Hno). reflexivity.
Qed.

(** C5. When the label "SQL:" occurs in any case in the response, once its
    special-token markers are gone, there is a last occurrence of it, and the
    result is computed from the text after that occurrence alone, which the
    cut also upper-cases: the text up to and including the last label plays
    no part in the search or in the result.  A response without "<" holds no
    special-token marker and is searched as it is. *)
Theorem extract_sql_query_after_last_label (response pre0 lab0 post0 : str) :
  let t := strip_special_tokens response in
  t = pre0 ++ lab0 ++ post0 ->
  upper lab0 = lit "SQL:" ->
  (exists pre lab post,
     t = pre ++ lab ++ post /\
     upper lab = lit "SQL:" /\
     contains (lit "SQL:") (upper post) = false) /\
  (forall pre lab post,
     t = pre ++ lab ++ post ->
     upper lab = lit "SQL:" ->
     contains (lit "SQL:") (upper post) = false ->
     cut_at_label t = upper post /\
     extract_sql_query response
     = terminate (clean_query (select_candidate (upper post)))) /\
  (~ In "<" response -> t = response).
Proof.
  intros t Ht Hlab. split; [| split].
  - exact (last_label_exists t pre0 lab0 post0 Ht Hlab).
  - intros pre lab post Hdec Hl Hlast.
    pose proof (cut_at_label_last t pre lab post Hdec Hl Hlast) as Hcut.
    split; [exact Hcut |].
    unfold extract_sql_query. fold t. rewrite Hcut. reflexivity.
  - apply strip_special_tokens_id.
Qed.

Lemma extract_sql_query_after_last_label_witness :
  extract_sql_query (lit "SQL: select 1; sql: Select 2 ;")
  = terminate (clean_query (select_candidate (upper (lit " Select 2 ;")))).
Proof.
  apply (proj1 (proj2 (extract_sql_query_after_last_label
                         (lit "SQL: select 1; sql: Select 2 ;")
                         [] (lit "SQL:") (lit " select 1; sql: Select 2 ;")
                         eq_refl eq_refl))
           (lit "SQL: select 1; ") (lit "sql:") (lit " Select 2 ;"));
    reflexivity.
Defined.

Example extract_sql_query_two_labels :
  extract_sql_query (lit "SQL: select 1; sql: Select 2 ;") = lit "SELECT 2 ;".
Proof. reflexivity. Qed.

(** *** A candidate that ends with a semicolon *)





Lemma sub_fences_fuel_absent (n : nat) (s : str) :
  ~ In "`" s -> sub_fences_fuel n s = s.
Proof.
  revert s. induction n as [| n IH]; intros s Hno; [reflexivity |].
  rewrite sub_fences_fuel_S.
  destruct (strip_prefix (lit "```") s) as [rest |] eqn:Hp.
  - apply strip_prefix_Some in Hp. exfalso. apply Hno. rewrite Hp.
    left. reflexivity.
  - destruct s as [| c s]; [reflexivity |].
    rewrite IH; [reflexivity |]. intros Hin. apply Hno. right. exact Hin.
Qed.

(** Replacing one character by another is a map. *)
Definition swap_char (a b c : ascii) : ascii := if Ascii.eqb a c then b else c.

Lemma replace_fuel_char (n : nat) (a b : ascii) (s : str) :
  length s <= n -> replace_fuel n [a] [b] s = map (swap_char a b) s.
Proof.
  revert s. induction n as [| n IH]; intros s Hlen.
  - destruct s; [reflexivity | simpl in Hlen; lia].
  - destruct s as [| c s]; [reflexivity |].
    simpl in Hlen. simpl. unfold swap_char at 1.
    destruct (Ascii.eqb a c); simpl; rewrite IH by lia; reflexivity.
Qed.

Lemma replace_char (a b : ascii) (s : str) :
  replace [a] [b] s = map (swap_char a b) s.
Proof. apply replace_fuel_char. lia. Qed.


Lemma lstrip_snoc (x : str) (c : ascii) :
  is_space c = false -> lstrip (x ++ [c]) = lstrip x ++ [c].
Proof.
  intros Hc. induction x as [| d x IH]; simpl.
  - rewrite Hc. reflexivity.
  - destruct (is_space d); [exact IH | reflexivity].
Qed.







(** *** Upper-casing keeps the whitespace *)

Lemma upper_char_is_space (c : ascii) : is_space (upper_char c) = is_space c.
Proof. destruct c as [[] [] [] [] [] [] [] []]; reflexivity. Qed.

(** *** The first statement of a response *)




Example extract_sql_query_fence_inside :
  extract_sql_query (lit "select a ```sql from t;") = lit "select a from t;".
Proof. reflexivity. Qed.

Example extract_sql_query_marker_inside :
  extract_sql_query (lit "select a<eos> from t;") = lit "select a from t;".
Proof. reflexivity. Qed.

(** After a label the text is searched in upper case. *)
Example extract_sql_query_label_upper_cases :
  extract_sql_query (lit "SQL: select * from t;") = lit "SELECT * FROM T;".
Proof. reflexivity. Qed.


Example extract_sql_query_first_of_two :
  extract_sql_query (lit "Sure: Select  a from T ; select 2;")
  = lit "Select a from T ;".
Proof. reflexivity. Qed.

(* ================================================================= *)
(** ** Further properties of the data loader *)

Lemma nth_error_combine {A B : Type} (l1 : list A) (l2 : list B) (i : nat)
    (a : A) (b : B) :
  nth_error l1 i = Some a -> nth_error l2 i = Some b ->
  nth_error (combine l1 l2) i = Some (a, b).
Proof.
  revert l2 i. induction l1 as [| x l1 IH]; intros [| y l2] [| i] Ha Hb;
    simpl in *; try discriminate.
  - congruence.
  - apply IH; assumption.
Qed.

Lemma str_eqb_true (a b : str) : str_eqb a b = true <-> a = b.
Proof.
  unfold str_eqb. destruct (list_eq_dec ascii_dec a b) as [Heq | Hne];
    split; intros H; try assumption; try reflexivity; try discriminate.
  contradiction.
Qed.

Section DatasetMore.

Variable tokenize_truncated : str -> list Z * list Z.
Variable tokenize : str -> list Z.
Variable convert_token_to_id : str -> Z.
Variable eos_token_id : Z.

Let process := process_data tokenize_truncated tokenize convert_token_to_id
                 eos_token_id.
Let train_ex := train_example tokenize_truncated tokenize convert_token_to_id
                  eos_token_id.

(** X1. For a split other than "test" the dataset has as many examples as
    the shorter of the two files has lines, further lines of the longer
    file are dropped without an error, and example [i] is built from line
    [i] of the questions and line [i] of the queries. *)
Theorem process_data_aligned (split : str) (data_in data_out : list str) :
  split <> lit "test" ->
  length (process split data_in data_out)
  = Nat.min (length data_in) (length data_out) /\
  (forall i nl_in sql_out,
     nth_error data_in i = Some nl_in ->
     nth_error data_out i = Some sql_out ->
     nth_error (process split data_in data_out) i
     = Some (train_ex (nl_in, sql_out))) /\
  (forall i, Nat.min (length data_in) (length data_out) <= i ->
     nth_error (process split data_in data_out) i = None).
Proof.
  intros Hsplit. unfold process, process_data.
  rewrite (str_eqb_false _ _ Hsplit).
  assert (Hlen : length (map train_ex (combine data_in data_out))
                 = Nat.min (length data_in) (length data_out))
    by (rewrite length_map, length_combine; reflexivity).
  split; [exact Hlen | split].
  - intros i nl_in sql_out Hin Hout.
    apply map_nth_error. apply nth_error_combine; assumption.
  - intros i Hi. apply nth_error_None. fold train_ex. rewrite Hlen. exact Hi.
Qed.

End DatasetMore.

(** *** Collation: failure, agreement, shapes *)

(** The rows of one field after [pad_sequence]. *)
Definition padded (v : Z) (rows : list (list Z)) : list (list Z) :=
  map (pad_to (list_max (map (@length Z) rows)) v) rows.

Lemma pad_sequence_nonempty (v : Z) (rows : list (list Z)) :
  rows <> [] -> pad_sequence rows v = Some (padded v rows).
Proof. destruct rows; [contradiction | reflexivity]. Qed.

Lemma map_nonempty {A B : Type} (f : A -> B) (l : list A) :
  l <> [] -> map f l <> [].
Proof. destruct l; [contradiction | discriminate]. Qed.

Lemma padded_right_padded (v : Z) (rows : list (list Z)) :
  rows <> [] -> right_padded v rows (padded v rows).
Proof.
  intros Hne. destruct (pad_sequence_spec v rows Hne) as [out [Hout Hpad]].
  rewrite (pad_sequence_nonempty v rows Hne) in Hout.
  injection Hout as <-. exact Hpad.
Qed.

Lemma padded_shape (v : Z) (rows : list (list Z)) :
  length (padded v rows) = length rows /\
  Forall (fun r => length r = list_max (map (@length Z) rows)) (padded v rows).
Proof.
  unfold padded. split; [apply length_map |].
  apply Forall_map. apply Forall_forall. intros row Hin.
  apply pad_to_length.
  pose proof (list_max_bounds (map (@length Z) rows)) as Hb.
  rewrite Forall_map, Forall_forall in Hb. exact (Hb row Hin).
Qed.

Lemma padded_uniform (v : Z) (rows : list (list Z)) (n : nat) :
  Forall (fun r => length r = n) rows -> padded v rows = rows.
Proof.
  intros Hall. destruct rows as [| row rows]; [reflexivity |].
  assert (Hmax : list_max (map (@length Z) (row :: rows)) = n).
  { apply Nat.le_antisymm.
    - apply list_max_le. apply Forall_map.
      eapply Forall_impl; [| exact Hall]. intros r Hr. simpl in Hr. lia.
    - inversion Hall as [| ? ? Hrow _]; subst.
      change (list_max (map (@length Z) (row :: rows)))
        with (Nat.max (length row) (list_max (map (@length Z) rows))).
      lia. }
  unfold padded. rewrite Hmax.
  rewrite <- (map_id (row :: rows)) at 2. apply map_ext_in.
  intros r Hin. rewrite Forall_forall in Hall. unfold pad_to.
  rewrite (Hall r Hin), Nat.sub_diag. apply app_nil_r.
Qed.

Lemma collect_None {A : Type} (field : example -> option A)
    (batch : list example) :
  collect field batch = None <-> Exists (fun item => field item = None) batch.
Proof.
  induction batch as [| item batch IH]; simpl.
  - split; [discriminate | intros H; inversion H].
  - destruct (field item) as [v |] eqn:Hf.
    + destruct (collect field batch) as [vs |].
      * split; [discriminate |]. intros H. inversion H as [? ? H0 | ? ? H0]; subst.
        -- congruence.
        -- apply IH in H0. discriminate.
      * split; [| reflexivity]. intros _. right. apply IH. reflexivity.
    + split; [| reflexivity]. intros _. left. exact Hf.
Qed.

Lemma collect_Some {A : Type} (field : example -> option A)
    (batch : list example) (vs : list A) :
  collect field batch = Some vs -> map field batch = map Some vs.
Proof.
  revert vs. induction batch as [| item batch IH]; intros vs; simpl.
  - intros [= <-]. reflexivity.
  - destruct (field item) as [v |]; [| discriminate].
    destruct (collect field batch) as [vs' |]; [| discriminate].
    intros [= <-]. simpl. rewrite (IH vs' eq_refl). reflexivity.
Qed.

Lemma normal_collate_fn_value (batch : list example)
    (dec_in dec_tgt : list (list Z)) :
  batch <> [] ->
  map decoder_input_ids batch = map Some dec_in ->
  map decoder_target_ids batch = map Some dec_tgt ->
  normal_collate_fn batch =
    Some (padded 0 (map encoder_input_ids batch),
          padded 0 (map encoder_attention_mask batch),
          padded 0 dec_in, padded 0 dec_tgt,
          map decoder_start_token batch).
Proof.
  intros Hne Hin Htgt. unfold normal_collate_fn.
  rewrite (collect_present _ _ _ Hin), (collect_present _ _ _ Htgt).
  assert (Hdin : dec_in <> []).
  { intros ->. destruct batch; [contradiction | discriminate]. }
  assert (Hdtgt : dec_tgt <> []).
  { intros ->. destruct batch; [contradiction | discriminate]. }
  unfold PAD_IDX.
  rewrite !pad_sequence_nonempty by (try apply map_nonempty; assumption).
  reflexivity.
Qed.

Lemma test_collate_fn_value (batch : list example) :
  batch <> [] ->
  test_collate_fn batch =
    Some (padded 0 (map encoder_input_ids batch),
          padded 0 (map encoder_attention_mask batch),
          map decoder_start_token batch).
Proof.
  intros Hne. unfold test_collate_fn, PAD_IDX.
  rewrite !pad_sequence_nonempty by (apply map_nonempty; assumption).
  reflexivity.
Qed.

(** X2. [normal_collate_fn] raises exactly on an empty batch and on a batch
    in which some example lacks a decoder sequence, as the examples of the
    test split do. *)
Theorem normal_collate_fn_raises (batch : list example) :
  normal_collate_fn batch = None <->
  batch = [] \/
  Exists (fun item => decoder_input_ids item = None \/
                      decoder_target_ids item = None) batch.
Proof.
  split.
  - intros Hnone.
    destruct batch as [| item0 batch0]; [left; reflexivity | right].
    remember (item0 :: batch0) as batch eqn:Hb.
    destruct (collect decoder_input_ids batch) as [dec_in |] eqn:Hin.
    + destruct (collect decoder_target_ids batch) as [dec_tgt |] eqn:Htgt.
      * apply collect_Some in Hin. apply collect_Some in Htgt.
        rewrite (normal_collate_fn_value batch dec_in dec_tgt) in Hnone;
          [discriminate | subst; discriminate | assumption | assumption].
      * apply collect_None in Htgt.
        eapply Exists_impl; [| exact Htgt]. intros a Ha. right. exact Ha.
    + apply collect_None in Hin.
      eapply Exists_impl; [| exact Hin]. intros a Ha. left. exact Ha.
  - intros [-> | Hex]; [reflexivity |].
    unfold normal_collate_fn.
    destruct (collect decoder_input_ids batch) as [dec_in |] eqn:Hin;
      [| reflexivity].
    destruct (collect decoder_target_ids batch) as [dec_tgt |] eqn:Htgt;
      [| reflexivity].
    exfalso. apply collect_Some in Hin. apply collect_Some in Htgt.
    apply Exists_exists in Hex. destruct Hex as [item [Hitem Hmiss]].
    assert (Hi : In (decoder_input_ids item) (map Some dec_in))
      by (rewrite <- Hin; apply in_map; exact Hitem).
    assert (Ht : In (decoder_target_ids item) (map Some dec_tgt))
      by (rewrite <- Htgt; apply in_map; exact Hitem).
    apply in_map_iff in Hi. destruct Hi as [vi [Hvi _]].
    apply in_map_iff in Ht. destruct Ht as [vt [Hvt _]].
    destruct Hmiss as [Hm | Hm]; congruence.
Qed.

Definition test_item : example :=
  {| encoder_input_ids := [5; 6]%Z; encoder_attention_mask := [1; 1]%Z;
     decoder_input_ids := None; decoder_target_ids := None;
     decoder_start_token := 9%Z |}.

Lemma normal_collate_fn_raises_witness :
  normal_collate_fn (sample_batch ++ [test_item]) = None.
Proof.
  apply (proj2 (normal_collate_fn_raises (sample_batch ++ [test_item]))).
  right. apply Exists_exists. exists test_item.
  split; [right; right; left; reflexivity | left; reflexivity].
Defined.

(** X3. [test_collate_fn] raises on the empty batch only.  On every other
    batch, whether or not its examples carry decoder sequences, it returns
    the encoder ids and the encoder masks, each with the rows in the order
    of the examples and filled on the right with 0 up to the longest row of
    the field, and the start token ids in the same order. *)
Theorem test_collate_fn_pads (batch : list example) :
  (test_collate_fn batch = None <-> batch = []) /\
  (batch <> [] ->
   exists encoder_ids encoder_masks,
     test_collate_fn batch =
       Some (encoder_ids, encoder_masks, map decoder_start_token batch) /\
     right_padded 0 (map encoder_input_ids batch) encoder_ids /\
     right_padded 0 (map encoder_attention_mask batch) encoder_masks).
Proof.
  split.
  - split; [| intros ->; reflexivity].
    destruct batch as [| item batch]; [reflexivity |].
    rewrite test_collate_fn_value by discriminate. discriminate.
  - intros Hne.
    exists (padded 0 (map encoder_input_ids batch)),
           (padded 0 (map encoder_attention_mask batch)).
    split; [apply test_collate_fn_value; exact Hne |].
    split; apply padded_right_padded, map_nonempty; exact Hne.
Qed.

Lemma test_collate_fn_pads_witness :
  exists encoder_ids encoder_masks,
    test_collate_fn [test_item] =
      Some (encoder_ids, encoder_masks, map decoder_start_token [test_item]) /\
    right_padded 0 (map encoder_input_ids [test_item]) encoder_ids /\
    right_padded 0 (map encoder_attention_mask [test_item]) encoder_masks.
Proof.
  apply (proj2 (test_collate_fn_pads [test_item])). discriminate.
Defined.

(** X4. Where [normal_collate_fn] returns, [test_collate_fn] returns the
    same encoder ids, encoder masks and start tokens: the two collation
    functions agree on the fields they share. *)
Theorem collate_fns_agree (batch : list example)
    (encoder_ids encoder_masks decoder_inputs decoder_targets : list (list Z))
    (initial_decoder_inputs : list Z) :
  normal_collate_fn batch =
    Some (encoder_ids, encoder_masks, decoder_inputs, decoder_targets,
          initial_decoder_inputs) ->
  test_collate_fn batch =
    Some (encoder_ids, encoder_masks, initial_decoder_inputs).
Proof.
  unfold normal_collate_fn, test_collate_fn.
  destruct (collect decoder_input_ids batch) as [dec_in |]; [| discriminate].
  destruct (collect decoder_target_ids batch) as [dec_tgt |]; [| discriminate].
  destruct (pad_sequence (map encoder_input_ids batch) PAD_IDX) as [ei |];
    [| discriminate].
  destruct (pad_sequence (map encoder_attention_mask batch) 0) as [em |];
    [| discriminate].
  destruct (pad_sequence dec_in PAD_IDX) as [di |]; [| discriminate].
  destruct (pad_sequence dec_tgt PAD_IDX) as [dt |]; [| discriminate].
  intros [= <- <- _ _ <-]. reflexivity.
Qed.

Lemma collate_fns_agree_witness :
  test_collate_fn sample_batch =
    Some ([[5; 6; 7]; [8; 0; 0]], [[1; 1; 1]; [1; 0; 0]], [9; 9])%Z.
Proof.
  apply (collate_fns_agree sample_batch _ _
           [[9; 4; 0]; [9; 2; 3]]%Z [[4; 1; 0]; [2; 3; 1]]%Z).
  reflexivity.
Defined.

(** X5. On a non-empty batch in which the sequences of each field have one
    length already, [normal_collate_fn] adds no padding: it returns the
    sequences of the examples as they are. *)
Theorem normal_collate_fn_uniform (batch : list example)
    (dec_in dec_tgt : list (list Z)) (n_ids n_mask n_in n_tgt : nat) :
  batch <> [] ->
  map decoder_input_ids batch = map Some dec_in ->
  map decoder_target_ids batch = map Some dec_tgt ->
  Forall (fun item => length (encoder_input_ids item) = n_ids) batch ->
  Forall (fun item => length (encoder_attention_mask item) = n_mask) batch ->
  Forall (fun row => length row = n_in) dec_in ->
  Forall (fun row => length row = n_tgt) dec_tgt ->
  normal_collate_fn batch =
    Some (map encoder_input_ids batch, map encoder_attention_mask batch,
          dec_in, dec_tgt, map decoder_start_token batch).
Proof.
  intros Hne Hin Htgt Hids Hmask Hdin Hdtgt.
  rewrite (normal_collate_fn_value batch dec_in dec_tgt Hne Hin Htgt).
  rewrite (padded_uniform 0 (map encoder_input_ids batch) n_ids)
    by (apply Forall_map; exact Hids).
  rewrite (padded_uniform 0 (map encoder_attention_mask batch) n_mask)
    by (apply Forall_map; exact Hmask).
  rewrite (padded_uniform 0 dec_in n_in Hdin).
  rewrite (padded_uniform 0 dec_tgt n_tgt Hdtgt).
  reflexivity.
Qed.

Definition even_batch : list example :=
  [ {| encoder_input_ids := [5; 6]%Z; encoder_attention_mask := [1; 1]%Z;
       decoder_input_ids := Some [9; 4]%Z; decoder_target_ids := Some [4; 1]%Z;
       decoder_start_token := 9%Z |};
    {| encoder_input_ids := [8; 7]%Z; encoder_attention_mask := [1; 1]%Z;
       decoder_input_ids := Some [9; 2]%Z; decoder_target_ids := Some [2; 1]%Z;
       decoder_start_token := 9%Z |} ].

Lemma normal_collate_fn_uniform_witness :
  normal_collate_fn even_batch =
    Some (map encoder_input_ids even_batch,
          map encoder_attention_mask even_batch,
          [[9; 4]; [9; 2]]%Z, [[4; 1]; [2; 1]]%Z,
          map decoder_start_token even_batch).
Proof.
  apply (normal_collate_fn_uniform even_batch _ _ 2 2 2 2);
    try reflexivity; try discriminate; repeat constructor.
Defined.

Lemma list_max_map_ext {A : Type} (f g : A -> nat) (l : list A) :
  (forall a, In a l -> f a = g a) ->
  list_max (map f l) = list_max (map g l).
Proof. intros H. rewrite (map_ext_in f g l H). reflexivity. Qed.

Section LoaderFacts.

Variable tokenize_truncated : str -> list Z * list Z.
Variable tokenize : str -> list Z.
Variable convert_token_to_id : str -> Z.
Variable eos_token_id : Z.

Let process := process_data tokenize_truncated tokenize convert_token_to_id
                 eos_token_id.

(** The decoder sequences of an example, empty when absent. *)
Definition decoder_input_of (item : example) : list Z :=
  match decoder_input_ids item with Some ids => ids | None => [] end.

Definition decoder_target_of (item : example) : list Z :=
  match decoder_target_ids item with Some ids => ids | None => [] end.

Lemma batch_of_train_split (split : str) (data_in data_out : list str)
    (batch : list example) :
  split <> lit "test" ->
  incl batch (process split data_in data_out) ->
  map decoder_input_ids batch = map Some (map decoder_input_of batch) /\
  map decoder_target_ids batch = map Some (map decoder_target_of batch) /\
  (forall item, In item batch ->
     length (decoder_input_of item) = length (decoder_target_of item) /\
     hd_error (decoder_input_of item) = Some (convert_token_to_id LoadData.BOS) /\
     decoder_start_token item = convert_token_to_id LoadData.BOS).
Proof.
  intros Hsplit Hincl.
  assert (Hfields : forall item, In item batch ->
            exists target,
              decoder_input_ids item
              = Some (convert_token_to_id LoadData.BOS :: target) /\
              decoder_target_ids item = Some (target ++ [eos_token_id]) /\
              decoder_start_token item = convert_token_to_id LoadData.BOS).
  { intros item Hitem. apply Hincl in Hitem.
    unfold process, process_data in Hitem.
    rewrite (str_eqb_false _ _ Hsplit) in Hitem.
    apply in_map_iff in Hitem. destruct Hitem as [[nl_in sql_out] [<- _]].
    exists (tokenize sql_out). repeat split. }
  split; [| split].
  - rewrite map_map. apply map_ext_in. intros item Hitem.
    destruct (Hfields item Hitem) as [target [Hi _]].
    unfold decoder_input_of. rewrite Hi. reflexivity.
  - rewrite map_map. apply map_ext_in. intros item Hitem.
    destruct (Hfields item Hitem) as [target [_ [Ht _]]].
    unfold decoder_target_of. rewrite Ht. reflexivity.
  - intros item Hitem. destruct (Hfields item Hitem) as [target [Hi [Ht Hs]]].
    unfold decoder_input_of, decoder_target_of. rewrite Hi, Ht.
    split; [| split; [reflexivity | exact Hs]].
    rewrite length_app. simpl. lia.
Qed.

(** X6. A non-empty batch of examples of a split other than "test" is
    collated without error into five tensors with one row per example.  The
    decoder inputs and the decoder targets have the same shape: all their
    rows share one length, which is at least 1.  Every row of the decoder
    inputs starts with the start token, and the initial decoder inputs hold
    that token once per example. *)
Theorem normal_collate_fn_train_shapes (split : str)
    (data_in data_out : list str) (batch : list example) :
  split <> lit "test" ->
  batch <> [] ->
  incl batch (process split data_in data_out) ->
  exists encoder_ids encoder_masks decoder_inputs decoder_targets width,
    normal_collate_fn batch =
      Some (encoder_ids, encoder_masks, decoder_inputs, decoder_targets,
            repeat (convert_token_to_id LoadData.BOS) (length batch)) /\
    length encoder_ids = length batch /\
    length encoder_masks = length batch /\
    length decoder_inputs = length batch /\
    length decoder_targets = length batch /\
    1 <= width /\
    Forall (fun row => length row = width) decoder_inputs /\
    Forall (fun row => length row = width) decoder_targets /\
    Forall (fun row => hd_error row = Some (convert_token_to_id LoadData.BOS))
      decoder_inputs.
Proof.
  intros Hsplit Hne Hincl.
  destruct (batch_of_train_split split data_in data_out batch Hsplit Hincl)
    as [Hin [Htgt Hitems]].
  set (dec_in := map decoder_input_of batch) in *.
  set (dec_tgt := map decoder_target_of batch) in *.
  assert (Hwidth : list_max (map (@length Z) dec_tgt)
                   = list_max (map (@length Z) dec_in)).
  { subst dec_in dec_tgt. rewrite !map_map. apply list_max_map_ext.
    intros item Hitem. symmetry. apply Hitems. exact Hitem. }
  assert (Hstart : map decoder_start_token batch
                   = repeat (convert_token_to_id LoadData.BOS) (length batch)).
  { clear - Hitems. induction batch as [| item batch IH]; [reflexivity |].
    simpl. rewrite IH by (intros i Hi; apply Hitems; right; exact Hi).
    f_equal. apply Hitems. left. reflexivity. }
  exists (padded 0 (map encoder_input_ids batch)),
         (padded 0 (map encoder_attention_mask batch)),
         (padded 0 dec_in), (padded 0 dec_tgt),
         (list_max (map (@length Z) dec_in)).
  rewrite <- Hstart.
  split; [apply normal_collate_fn_value; assumption |].
  destruct (padded_shape 0 (map encoder_input_ids batch)) as [Hl1 _].
  destruct (padded_shape 0 (map encoder_attention_mask batch)) as [Hl2 _].
  destruct (padded_shape 0 dec_in) as [Hl3 Hw3].
  destruct (padded_shape 0 dec_tgt) as [Hl4 Hw4].
  rewrite Hwidth in Hw4. rewrite length_map in Hl1, Hl2.
  subst dec_in dec_tgt. rewrite length_map in Hl3, Hl4.
  repeat (split; [assumption |]).
  split; [| split; [exact Hw3 | split; [exact Hw4 |]]].
  - destruct batch as [| item batch]; [contradiction |].
    destruct (Hitems item (or_introl eq_refl)) as [_ [Hhd _]].
    change (list_max (map (@length Z) (map decoder_input_of (item :: batch))))
      with (Nat.max (length (decoder_input_of item))
              (list_max (map (@length Z) (map decoder_input_of batch)))).
    destruct (decoder_input_of item); [discriminate | simpl length; lia].
  - unfold padded. apply Forall_map. apply Forall_map.
    apply Forall_forall. intros item Hitem.
    destruct (Hitems item Hitem) as [_ [Hhd _]].
    unfold pad_to. destruct (decoder_input_of item); [discriminate |].
    exact Hhd.
Qed.

(** X7. The collation function [get_dataloader] chooses for a split never
    raises on a non-empty batch of the examples built for that split:
    [normal_collate_fn] for every split other than "test", whose examples
    all carry decoder sequences, and [test_collate_fn] for "test", whose
    examples carry none, so that [normal_collate_fn] would raise there.
    Only the "train" split is shuffled. *)
Theorem get_dataloader_collates (split : str) (data_in data_out : list str)
    (batch : list example) :
  batch <> [] ->
  incl batch (process split data_in data_out) ->
  (split <> lit "test" ->
   exists fields,
     get_dataloader_collate_fn split batch = Some (NormalBatch fields) /\
     normal_collate_fn batch = Some fields) /\
  (split = lit "test" ->
   exists fields,
     get_dataloader_collate_fn split batch = Some (TestBatch fields) /\
     test_collate_fn batch = Some fields /\
     normal_collate_fn batch = None) /\
  (get_dataloader_shuffle split = true <-> split = lit "train").
Proof.
  intros Hne Hincl. split; [| split].
  - intros Hsplit.
    destruct (batch_of_train_split split data_in data_out batch Hsplit Hincl)
      as [Hin [Htgt _]].
    pose proof (normal_collate_fn_value batch _ _ Hne Hin Htgt) as Hval.
    eexists. unfold get_dataloader_collate_fn.
    rewrite (str_eqb_false _ _ Hsplit), Hval. split; reflexivity.
  - intros ->.
    pose proof (test_collate_fn_value batch Hne) as Hval.
    eexists. unfold get_dataloader_collate_fn.
    change (str_eqb (lit "test") (lit "test")) with true.
    rewrite Hval. split; [reflexivity | split; [reflexivity |]].
    apply normal_collate_fn_raises. right.
    destruct batch as [| item batch]; [contradiction |].
    left. left.
    assert (Hitem : In item (process (lit "test") data_in data_out))
      by (apply Hincl; left; reflexivity).
    unfold process, process_data in Hitem.
    change (str_eqb (lit "test") (lit "test")) with true in Hitem.
    cbv iota in Hitem. apply in_map_iff in Hitem.
    destruct Hitem as [nl_in [<- _]]. reflexivity.
  - unfold get_dataloader_shuffle. apply str_eqb_true.
Qed.

End LoaderFacts.

(** A small development set and its dataset, under the tokenizer
    [char_ids]. *)
Definition sample_tokenizer (s : str) : list Z * list Z :=
  (char_ids s, map (fun _ => 1%Z) s).

Definition sample_process :=
  process_data sample_tokenizer char_ids (fun _ => 32099%Z) 1%Z.

Definition sample_questions : list str := [lit "how many"; lit "which"; lit "x"].
Definition sample_queries : list str := [lit "SELECT 1;"; lit "SELECT 22;"].

Lemma process_data_aligned_witness :
  length (sample_process (lit "dev") sample_questions sample_queries)
  = Nat.min (length sample_questions) (length sample_queries).
Proof.
  apply (process_data_aligned sample_tokenizer char_ids (fun _ => 32099%Z) 1%Z
           (lit "dev") sample_questions sample_queries).
  vm_compute. discriminate.
Defined.

Lemma normal_collate_fn_train_shapes_witness :
  exists encoder_ids encoder_masks decoder_inputs decoder_targets width,
    normal_collate_fn (sample_process (lit "dev") sample_questions sample_queries) =
      Some (encoder_ids, encoder_masks, decoder_inputs, decoder_targets,
            repeat 32099%Z
              (length (sample_process (lit "dev") sample_questions
                         sample_queries))) /\
    length encoder_ids
    = length (sample_process (lit "dev") sample_questions sample_queries) /\
    length encoder_masks
    = length (sample_process (lit "dev") sample_questions sample_queries) /\
    length decoder_inputs
    = length (sample_process (lit "dev") sample_questions sample_queries) /\
    length decoder_targets
    = length (sample_process (lit "dev") sample_questions sample_queries) /\
    1 <= width /\
    Forall (fun row => length row = width) decoder_inputs /\
    Forall (fun row => length row = width) decoder_targets /\
    Forall (fun row => hd_error row = Some 32099%Z) decoder_inputs.
Proof.
  apply (normal_collate_fn_train_shapes sample_tokenizer char_ids
           (fun _ => 32099%Z) 1%Z (lit "dev") sample_questions sample_queries).
  - vm_compute. discriminate.
  - vm_compute. discriminate.
  - apply incl_refl.
Defined.

Lemma get_dataloader_collates_witness :
  exists fields,
    get_dataloader_collate_fn (lit "test")
      (sample_process (lit "test") sample_questions []) = Some (TestBatch fields) /\
    test_collate_fn (sample_process (lit "test") sample_questions [])
    = Some fields /\
    normal_collate_fn (sample_process (lit "test") sample_questions []) = None.
Proof.
  apply (proj1 (proj2 (get_dataloader_collates sample_tokenizer char_ids
                         (fun _ => 32099%Z) 1%Z (lit "test")
                         sample_questions []
                         (sample_process (lit "test") sample_questions [])
                         ltac:(vm_compute; discriminate)
                         (incl_refl _)))).
  reflexivity.
Defined.

(** *** Reading lines *)

Lemma readlines_from_line (cur l rest : str) :
  ~ In "010" l ->
  readlines_from cur (l ++ "010" :: rest)
  = (rev cur ++ l ++ ["010"]) :: readlines_from [] rest.
Proof.
  revert cur. induction l as [| c l IH]; intros cur Hno.
  - simpl. reflexivity.
  - cbn [app readlines_from].
    destruct (Ascii.eqb_spec c "010") as [-> | Hc].
    + exfalso. apply Hno. left. reflexivity.
    + rewrite IH by (intros Hin; apply Hno; right; exact Hin).
      simpl. rewrite <- app_assoc. reflexivity.
Qed.

Lemma readlines_from_last (cur l : str) :
  ~ In "010" l ->
  readlines_from cur l
  = match rev cur ++ l with
    | [] => []
    | _ :: _ => [rev cur ++ l]
    end.
Proof.
  revert cur. induction l as [| c l IH]; intros cur Hno.
  - simpl. rewrite app_nil_r.
    destruct cur as [| d cur]; [reflexivity |].
    destruct (rev (d :: cur)) eqn:Hrev; [| reflexivity].
    apply (f_equal (@length ascii)) in Hrev. rewrite length_rev in Hrev.
    discriminate.
  - cbn [readlines_from].
    destruct (Ascii.eqb_spec c "010") as [-> | Hc].
    + exfalso. apply Hno. left. reflexivity.
    + rewrite IH by (intros Hin; apply Hno; right; exact Hin).
      simpl. rewrite <- app_assoc. reflexivity.
Qed.

Lemma readlines_lines (ls : list str) (last : str) :
  Forall (fun l => ~ In "010" l) ls ->
  ~ In "010" last ->
  readlines (concat (map (fun l => l ++ ["010"]) ls) ++ last)
  = map (fun l => l ++ ["010"]) ls
    ++ match last with
       | [] => []
       | _ :: _ => [last]
       end.
Proof.
  intros Hls Hlast. unfold readlines.
  induction Hls as [| l ls Hl _ IH].
  - simpl. rewrite (readlines_from_last [] last Hlast). reflexivity.
  - cbn [map concat]. rewrite <- !app_assoc. cbn [app].
    rewrite (readlines_from_line [] l _ Hl), IH. reflexivity.
Qed.

Lemma lstrip_app_space (x : str) (c : ascii) :
  is_space c = true ->
  lstrip (x ++ [c])
  = match lstrip x with
    | [] => []
    | d :: t => (d :: t) ++ [c]
    end.
Proof.
  intros Hc. induction x as [| d x IH]; simpl.
  - rewrite Hc. reflexivity.
  - destruct (is_space d); [exact IH | reflexivity].
Qed.

Lemma rstrip_snoc_space (x : str) (c : ascii) :
  is_space c = true -> rstrip (x ++ [c]) = rstrip x.
Proof.
  intros Hc. unfold rstrip. rewrite rev_app_distr. simpl. rewrite Hc.
  reflexivity.
Qed.

Lemma strip_snoc_space (x : str) (c : ascii) :
  is_space c = true -> strip (x ++ [c]) = strip x.
Proof.
  intros Hc. unfold strip. rewrite (lstrip_app_space x c Hc).
  destruct (lstrip x) as [| d t]; [reflexivity |].
  apply rstrip_snoc_space. exact Hc.
Qed.

(** A string with no whitespace at either end. *)
Definition no_outer_space (l : str) : Prop :=
  (forall c r, l = c :: r -> is_space c = false) /\
  (forall p c, l = p ++ [c] -> is_space c = false).

Lemma lstrip_head (s : str) (c : ascii) (r : str) :
  lstrip s = c :: r -> is_space c = false.
Proof.
  induction s as [| d s IH]; simpl; [discriminate |].
  destruct (is_space d) eqn:Hd; [exact IH |].
  intros [= <- _]. exact Hd.
Qed.

Lemma lstrip_fixed (s : str) :
  (forall c r, s = c :: r -> is_space c = false) -> lstrip s = s.
Proof.
  destruct s as [| c s]; [reflexivity |]. intros H.
  simpl. rewrite (H c s eq_refl). reflexivity.
Qed.

Lemma rstrip_head (c : ascii) (t : str) :
  is_space c = false -> rstrip (c :: t) = c :: rstrip t.
Proof.
  intros Hc. unfold rstrip. simpl rev.
  rewrite (lstrip_snoc _ _ Hc), rev_app_distr. reflexivity.
Qed.

Lemma rstrip_last (s p : str) (c : ascii) :
  rstrip s = p ++ [c] -> is_space c = false.
Proof.
  unfold rstrip. intros H.
  apply (f_equal (@rev ascii)) in H.
  rewrite rev_involutive, rev_app_distr in H. simpl in H.
  exact (lstrip_head _ _ _ H).
Qed.

Lemma strip_no_outer_space (s : str) : no_outer_space (strip s).
Proof.
  unfold strip. split.
  - intros c r H. destruct (lstrip s) as [| d t] eqn:Hl; [discriminate H |].
    pose proof (lstrip_head _ _ _ Hl) as Hd.
    rewrite (rstrip_head d t Hd) in H. injection H as <- _. exact Hd.
  - intros p c H. exact (rstrip_last _ _ _ H).
Qed.

Lemma strip_fixed (s : str) : no_outer_space s -> strip s = s.
Proof.
  intros [Hhead Hlast]. unfold strip, rstrip.
  rewrite (lstrip_fixed s Hhead), lstrip_fixed; [apply rev_involutive |].
  intros c r Hrev. apply (Hlast (rev r) c).
  rewrite <- (rev_involutive s), Hrev. reflexivity.
Qed.

Lemma strip_idempotent (s : str) : strip (strip s) = strip s.
Proof. apply strip_fixed, strip_no_outer_space. Qed.

Lemma stripped_lines_clean (cur s : str) :
  ~ In "010" cur ->
  Forall (fun l => ~ In "010" l) (map strip (readlines_from cur s)).
Proof.
  revert cur. induction s as [| c s IH]; intros cur Hcur.
  - simpl. destruct cur as [| d cur]; [constructor |].
    constructor; [| constructor].
    intros Hin.
    assert (Hall : Forall (fun a => a <> "010") (strip (rev (d :: cur)))).
    { apply strip_Forall, Forall_rev, Forall_forall.
      intros a Ha ->. exact (Hcur Ha). }
    rewrite Forall_forall in Hall. exact (Hall _ Hin eq_refl).
  - cbn [readlines_from].
    destruct (Ascii.eqb_spec c "010") as [-> | Hc].
    + cbn [map]. constructor; [| apply IH; intros []].
      simpl rev. rewrite strip_snoc_space by reflexivity.
      intros Hin.
      assert (Hall : Forall (fun a => a <> "010") (strip (rev cur))).
      { apply strip_Forall, Forall_rev, Forall_forall.
        intros a Ha ->. exact (Hcur Ha). }
      rewrite Forall_forall in Hall. exact (Hall _ Hin eq_refl).
    + apply IH. intros [Hin | Hin]; [congruence | exact (Hcur Hin)].
Qed.

Section FilesFacts.

Variable read_text : str -> option str.

(** X8. A file that holds the lines [ls], each ended by a newline, and then
    a last line [last] without one, loads as these lines in their order,
    each stripped of surrounding whitespace; blank lines stay, as empty
    strings, so that the line numbers of two files stay aligned, and an
    empty [last] gives no line. *)
Theorem load_lines_of_lines (path : str) (ls : list str) (last : str) :
  Forall (fun l => ~ In "010" l) ls ->
  ~ In "010" last ->
  read_text path = Some (concat (map (fun l => l ++ ["010"]) ls) ++ last) ->
  load_lines read_text path
  = Some (map strip ls
          ++ match last with
             | [] => []
             | _ :: _ => [strip last]
             end).
Proof.
  intros Hls Hlast Hread. unfold load_lines, stripped_lines.
  rewrite Hread, (readlines_lines ls last Hls Hlast), map_app, map_map.
  f_equal. f_equal.
  - apply map_ext. intros l. apply strip_snoc_space. reflexivity.
  - destruct last; reflexivity.
Qed.

Lemma load_lines_lines (path : str) (lines : list str) (l : str) :
  load_lines read_text path = Some lines ->
  In l lines ->
  no_outer_space l /\ ~ In "010" l /\ strip l = l.
Proof.
  unfold load_lines.
  destruct (read_text path) as [content |]; [| discriminate].
  intros [= <-] Hl. unfold stripped_lines, readlines in Hl.
  pose proof (stripped_lines_clean [] content (fun H => H)) as Hclean.
  rewrite Forall_forall in Hclean. pose proof (Hclean l Hl) as Hnl.
  apply in_map_iff in Hl. destruct Hl as [raw [<- _]].
  split; [apply strip_no_outer_space | split; [exact Hnl |]].
  apply strip_idempotent.
Qed.

(** X9. Every line [load_lines] returns has no whitespace at either end,
    holds no newline, and is unchanged by a further [strip]. *)
Theorem load_lines_stripped (path : str) (lines : list str) :
  load_lines read_text path = Some lines ->
  Forall (fun l => no_outer_space l /\ ~ In "010" l /\ strip l = l) lines.
Proof.
  intros Hload. apply Forall_forall. intros l Hl.
  exact (load_lines_lines path lines l Hload Hl).
Qed.

(** X10. Training queries that come from [load_lines] are stripped already,
    so [create_prompt] shows each of them as it was loaded, with a
    semicolon added exactly when the line does not end with one. *)
Theorem loaded_example_sql (path : str) (train_y : list str) (y : str) :
  load_lines read_text path = Some train_y ->
  In y train_y ->
  example_sql y = (if endswith_char y ";" then y else y ++ [";"]).
Proof.
  intros Hload Hin.
  destruct (load_lines_lines path train_y y Hload Hin) as [_ [_ Hfix]].
  unfold example_sql. rewrite Hfix.
  destruct (endswith_char y ";"); reflexivity.
Qed.

End FilesFacts.

Definition sample_files (path : str) : option str :=
  if str_eqb path (lit "data/train.sql") then
    Some (lit "  SELECT 1; " ++ nl ++ nl ++ lit "SELECT 2")
  else None.

Lemma load_lines_of_lines_witness :
  load_lines sample_files (lit "data/train.sql")
  = Some (map strip [lit "  SELECT 1; "; []] ++ [strip (lit "SELECT 2")]).
Proof.
  apply (load_lines_of_lines sample_files (lit "data/train.sql")
           [lit "  SELECT 1; "; []] (lit "SELECT 2")).
  - repeat constructor; vm_compute; intuition discriminate.
  - vm_compute. intuition discriminate.
  - reflexivity.
Defined.

Lemma load_lines_stripped_witness :
  Forall (fun l => no_outer_space l /\ ~ In "010" l /\ strip l = l)
    [lit "SELECT 1;"; []; lit "SELECT 2"].
Proof.
  apply (load_lines_stripped sample_files (lit "data/train.sql")).
  reflexivity.
Defined.

Lemma loaded_example_sql_witness :
  example_sql (lit "SELECT 2")
  = (if endswith_char (lit "SELECT 2") ";" then lit "SELECT 2"
     else lit "SELECT 2" ++ [";"]).
Proof.
  apply (loaded_example_sql sample_files (lit "data/train.sql")
           [lit "SELECT 1;"; []; lit "SELECT 2"]).
  - reflexivity.
  - right. right. left. reflexivity.
Defined.

(* ================================================================= *)
(** ** Further properties of prompt assembly and of the loop *)

(** The condition under which the loop over the examples reads past the end
    of [train_y]. *)
Definition reads_past_train_y (k : Z) (train_x train_y : option (list str))
    : Prop :=
  (k > 0)%Z /\ truthy_list train_x = true /\ truthy_list train_y = true /\
  len_of train_y < Z.to_nat (Z.min k (Z.of_nat (len_of train_x))).

Lemma create_prompt_None (sentence : str) (k : Z)
    (train_x train_y : option (list str)) (schema : option str) (ptype : Z) :
  create_prompt sentence k train_x train_y schema ptype = None <->
  reads_past_train_y k train_x train_y.
Proof.
  unfold create_prompt, reads_past_train_y.
  destruct (k >? 0)%Z eqn:Hk.
  - apply Z.gtb_lt in Hk.
    destruct train_x as [[| x tx] |]; cbn [truthy_list andb];
      try (split; [discriminate | intros [_ [H _]]; discriminate H]).
    destruct train_y as [[| y ty] |]; cbn [truthy_list andb];
      try (split; [discriminate | intros [_ [_ [H _]]]; discriminate H]).
    cbn [len_of].
    set (n := Z.to_nat (Z.min k (Z.of_nat (length (x :: tx))))).
    assert (Hn : n <= length (x :: tx)) by (subst n; lia).
    destruct (Nat.le_gt_cases n (length (y :: ty))) as [Hle | Hgt].
    + rewrite (add_examples_blocks (x :: tx) (y :: ty) n 0)
        by (cbn [Nat.add]; assumption).
      split; [discriminate |]. intros [_ [_ [_ H]]]. lia.
    + rewrite (add_examples_index_error (x :: tx) (y :: ty) n 0)
        by (cbn [Nat.add]; lia).
      split; [| reflexivity]. intros _. repeat split; [lia | exact Hgt].
  - cbn [andb]. split; [discriminate |].
    intros [H _]. rewrite Z.gtb_ltb in Hk. apply Z.ltb_ge in Hk. lia.
Qed.

(** X11. [create_prompt] raises exactly when [k > 0], both training lists
    are given and non-empty, and [train_y] has fewer entries than
    [min k (length train_x)]; the target sentence, the schema and the prompt
    type play no part in that.  With [k <= 0], or a training list missing or
    empty, the prompt is the instruction text followed by the target
    sentence, whatever the other list holds. *)
Theorem create_prompt_outcomes (sentence : str) (k : Z)
    (train_x train_y : option (list str)) (schema : option str) (ptype : Z) :
  (create_prompt sentence k train_x train_y schema ptype = None <->
   reads_past_train_y k train_x train_y) /\
  ((k <= 0)%Z \/ truthy_list train_x = false \/ truthy_list train_y = false ->
   create_prompt sentence k train_x train_y schema ptype
   = Some (instruction schema ptype ++ sentence)).
Proof.
  split; [apply create_prompt_None |].
  intros Hzero. unfold create_prompt.
  assert (Hcond : (k >? 0)%Z && truthy_list train_x && truthy_list train_y
                  = false).
  { destruct Hzero as [Hk | [Hx | Hy]].
    - assert (Hkb : (k >? 0)%Z = false)
        by (rewrite Z.gtb_ltb; apply Z.ltb_ge; lia).
      rewrite Hkb. reflexivity.
    - rewrite Hx. apply andb_false_iff. left. apply andb_false_r.
    - rewrite Hy. apply andb_false_r. }
  rewrite Hcond. reflexivity.
Qed.

Lemma create_prompt_outcomes_witness :
  create_prompt (lit "list all airports") 3 (Some [lit "how many?"]) (Some [])
    None 0
  = Some (instruction None 0 ++ lit "list all airports").
Proof.
  apply (proj2 (create_prompt_outcomes (lit "list all airports") 3
                  (Some [lit "how many?"]) (Some []) None 0)).
  right. right. reflexivity.
Defined.

(** X12. A shot count beyond the number of training questions changes
    nothing: every [k >= length train_x] gives the prompt, or the error,
    that [k = length train_x] gives. *)
Theorem create_prompt_shots_capped (sentence : str) (k : Z)
    (train_x : list str) (train_y : option (list str)) (schema : option str)
    (ptype : Z) :
  (Z.of_nat (length train_x) <= k)%Z ->
  create_prompt sentence k (Some train_x) train_y schema ptype
  = create_prompt sentence (Z.of_nat (length train_x)) (Some train_x) train_y
      schema ptype.
Proof.
  intros Hk. unfold create_prompt.
  destruct train_x as [| x tx].
  - cbn [truthy_list]. rewrite !andb_false_r. reflexivity.
  - assert (H1 : (k >? 0)%Z = true)
      by (apply Z.gtb_lt; cbn [length] in Hk; lia).
    assert (H2 : (Z.of_nat (length (x :: tx)) >? 0)%Z = true)
      by (apply Z.gtb_lt; cbn [length]; lia).
    rewrite H1, H2. cbn [len_of].
    rewrite Z.min_r by exact Hk. rewrite Z.min_id. reflexivity.
Qed.

Lemma create_prompt_shots_capped_witness :
  create_prompt (lit "q") 50 (Some [lit "a"; lit "b"])
    (Some [lit "x"; lit "y;"]) None 1
  = create_prompt (lit "q") 2 (Some [lit "a"; lit "b"])
      (Some [lit "x"; lit "y;"]) None 1.
Proof.
  apply (create_prompt_shots_capped (lit "q") 50 [lit "a"; lit "b"]).
  vm_compute. discriminate.
Defined.

(** X13. The schema reaches a prompt for prompt type 2 only.  For the
    prompt types 0 and 1 [create_prompt] ignores the schema it is given,
    although [main] reads the schema file for type 1; for every other type
    but 2, [main] hands over no schema.  For type 2 the line of the schema
    file is present whenever the file exists and is not empty. *)
Theorem schema_only_for_ptype_2 (sentence : str) (k : Z)
    (train_x train_y : option (list str)) (schema schema_file : option str)
    (ptype : Z) :
  (ptype = 0%Z \/ ptype = 1%Z ->
   create_prompt sentence k train_x train_y schema ptype
   = create_prompt sentence k train_x train_y None ptype) /\
  (ptype <> 2%Z ->
   create_prompt sentence k train_x train_y (main_schema ptype schema_file)
     ptype
   = create_prompt sentence k train_x train_y None ptype) /\
  instruction (main_schema 2 schema_file) 2
  = INSTRUCT2 ++ schema_line schema_file.
Proof.
  split; [| split].
  - intros [-> | ->]; reflexivity.
  - intros Hp. unfold main_schema.
    destruct (Z.eqb_spec ptype 1) as [-> | H1]; [reflexivity |].
    destruct (Z.eqb_spec ptype 2) as [-> | H2]; [contradiction | reflexivity].
  - apply instruction_variant2; discriminate.
Qed.

Lemma schema_only_for_ptype_2_witness :
  create_prompt (lit "q") 0 None None (main_schema 1 (Some (lit "flight(id)"))) 1
  = create_prompt (lit "q") 0 None None None 1.
Proof.
  apply (proj1 (proj2 (schema_only_for_ptype_2 (lit "q") 0 None None None
                         (Some (lit "flight(id)")) 1))).
  discriminate.
Defined.

Lemma read_ground_truth_None (i : nat) (ground_truth : option (list str)) :
  read_ground_truth i ground_truth = None <->
  truthy_list ground_truth = true /\ i < 5 /\ len_of ground_truth <= i.
Proof.
  unfold read_ground_truth.
  destruct (i <? 5) eqn:Hi.
  - apply Nat.ltb_lt in Hi.
    destruct ground_truth as [[| g gt] |]; cbn [truthy_list andb];
      try (split; [discriminate | intros [H _]; discriminate H]).
    cbn [getitem len_of].
    destruct (nth_error (g :: gt) i) eqn:Hn.
    + split; [discriminate |]. intros [_ [_ Hle]].
      assert (i < length (g :: gt)) by (apply nth_error_Some; congruence). lia.
    + apply nth_error_None in Hn. split; [| reflexivity].
      intros _. repeat split; assumption.
  - apply Nat.ltb_ge in Hi. cbn [andb].
    split; [discriminate | intros [_ [H _]]; lia].
Qed.

Lemma exp_kshot_from_Some (generate : nat -> str -> str) (k : Z)
    (train_x train_y : option (list str)) (schema : option str) (ptype : Z)
    (ground_truth : option (list str)) (inputs : list str) :
  forall (i : nat) (raw extracted raw' extracted' : list str),
    exp_kshot_from generate i inputs k train_x train_y schema ptype
      ground_truth raw extracted = Some (raw', extracted') ->
    exists responses,
      raw' = raw ++ responses /\
      extracted' = extracted ++ map extract_sql_query responses /\
      length responses = length inputs.
Proof.
  induction inputs as [| sentence inputs IH];
    intros i raw extracted raw' extracted'; cbn [exp_kshot_from].
  - intros [= <- <-]. exists []. rewrite !app_nil_r. repeat split.
  - destruct (create_prompt sentence k train_x train_y schema ptype)
      as [prompt |]; [| discriminate].
    destruct (read_ground_truth i ground_truth); [| discriminate].
    intros Hrec. apply IH in Hrec.
    destruct Hrec as [responses [-> [-> Hlen]]].
    exists (strip_prompt prompt (generate i prompt) :: responses).
    rewrite <- !app_assoc. simpl. rewrite Hlen. repeat split.
Qed.

(** Some ground truth read of the inputs from [i] on is past the end. *)
Definition ground_truth_short (i n : nat) (ground_truth : option (list str))
    : Prop :=
  truthy_list ground_truth = true /\
  exists j, j < n /\ i + j < 5 /\ len_of ground_truth <= i + j.

Lemma exp_kshot_from_None (generate : nat -> str -> str) (k : Z)
    (train_x train_y : option (list str)) (schema : option str) (ptype : Z)
    (ground_truth : option (list str)) (inputs : list str) :
  forall (i : nat) (raw extracted : list str),
    exp_kshot_from generate i inputs k train_x train_y schema ptype
      ground_truth raw extracted = None <->
    inputs <> [] /\
    (reads_past_train_y k train_x train_y \/
     ground_truth_short i (length inputs) ground_truth).
Proof.
  induction inputs as [| sentence inputs IH]; intros i raw extracted;
    cbn [exp_kshot_from].
  - split; [discriminate | intros [H _]; contradiction].
  - destruct (create_prompt sentence k train_x train_y schema ptype)
      as [prompt |] eqn:Hp.
    + assert (Hnot : ~ reads_past_train_y k train_x train_y).
      { intros Hpast.
        apply (create_prompt_None sentence k train_x train_y schema ptype)
          in Hpast. congruence. }
      destruct (read_ground_truth i ground_truth) eqn:Hread.
      * rewrite IH. unfold ground_truth_short. split.
        -- intros [_ [Hpast | [Ht [j [Hj [Hj5 Hlen]]]]]]; [contradiction |].
           split; [discriminate |]. right. split; [exact Ht |].
           exists (S j). cbn [length]. repeat split; lia.
        -- intros [_ [Hpast | [Ht [j [Hj [Hj5 Hlen]]]]]]; [contradiction |].
           destruct j as [| j].
           ++ assert (Hnone : read_ground_truth i ground_truth = None).
              { apply read_ground_truth_None. repeat split; [exact Ht | lia | lia]. }
              congruence.
           ++ cbn [length] in Hj.
              split; [destruct inputs; [simpl in Hj; lia | discriminate] |].
              right. split; [exact Ht |]. exists j. repeat split; lia.
      * apply read_ground_truth_None in Hread.
        destruct Hread as [Ht [Hi Hlen]].
        split; [| reflexivity]. intros _. split; [discriminate |].
        right. split; [exact Ht |]. exists 0. cbn [length].
        repeat split; lia.
    + apply create_prompt_None in Hp.
      split; [intros _; split; [discriminate | left; exact Hp] | reflexivity].
Qed.

(** X14. [exp_kshot] raises exactly when there is an input and either
    [create_prompt] reads past the end of [train_y], or a ground truth is
    given, is not empty, and is shorter than the number of inputs whose
    diagnostics are printed, the first five at most.  With no input it
    returns two empty lists.  Whenever it returns, both lists have one
    entry per input, and the extracted queries are [extract_sql_query] of
    the raw outputs, entry by entry. *)
Theorem exp_kshot_outputs (generate : nat -> str -> str) (inputs : list str)
    (k : Z) (train_x train_y : option (list str)) (schema : option str)
    (ptype : Z) (ground_truth : option (list str)) :
  (exp_kshot generate inputs k train_x train_y schema ptype ground_truth = None
   <->
   inputs <> [] /\
   (reads_past_train_y k train_x train_y \/
    (truthy_list ground_truth = true /\
     len_of ground_truth < Nat.min 5 (length inputs)))) /\
  (forall raw_outputs extracted_queries,
     exp_kshot generate inputs k train_x train_y schema ptype ground_truth
     = Some (raw_outputs, extracted_queries) ->
     length raw_outputs = length inputs /\
     length extracted_queries = length inputs /\
     extracted_queries = map extract_sql_query raw_outputs).
Proof.
  unfold exp_kshot. split.
  - rewrite exp_kshot_from_None. unfold ground_truth_short.
    split; intros [Hne Hcase]; (split; [exact Hne |]);
      destruct Hcase as [Hpast | [Ht Hshort]]; try (left; exact Hpast);
      right; (split; [exact Ht |]).
    + destruct Hshort as [j [Hj [Hj5 Hlen]]]. lia.
    + exists (len_of ground_truth). lia.
  - intros raw ext Hrun. apply exp_kshot_from_Some in Hrun.
    destruct Hrun as [responses [-> [-> Hlen]]]. simpl.
    rewrite length_map. repeat split; exact Hlen.
Qed.

Lemma exp_kshot_outputs_witness :
  exp_kshot (fun _ prompt => prompt ++ lit " SELECT 1 ")
    [lit "a"; lit "b"] 0 None None None 0 (Some [lit "SELECT 2;"]) = None.
Proof.
  apply (proj1 (exp_kshot_outputs (fun _ prompt => prompt ++ lit " SELECT 1 ")
                  [lit "a"; lit "b"] 0 None None None 0
                  (Some [lit "SELECT 2;"]))).
  split; [discriminate |]. right. split; [reflexivity |].
  apply Nat.ltb_lt. reflexivity.
Defined.

Example exp_kshot_two_inputs :
  exp_kshot (fun _ prompt => prompt ++ lit " SELECT 1 ")
    [lit "a"; lit "b"] 0 None None None 0 None
  = Some ([lit "SELECT 1"; lit "SELECT 1"], [lit "SELECT 1;"; lit "SELECT 1;"]).
Proof. reflexivity. Qed.

(** *** The error rate *)

Lemma count_errors_range (error_msgs : list str) :
  (0 <= count_errors error_msgs <= Z.of_nat (length error_msgs))%Z.
Proof.
  induction error_msgs as [| msg rest IH]; cbn [count_errors length].
  - lia.
  - destruct (truthy msg); lia.
Qed.

Lemma count_errors_zero (error_msgs : list str) :
  count_errors error_msgs = 0%Z <-> Forall (fun msg => msg = []) error_msgs.
Proof.
  induction error_msgs as [| msg rest IH]; cbn [count_errors].
  - split; [constructor | reflexivity].
  - pose proof (count_errors_range rest) as Hr.
    destruct msg as [| c msg]; cbn [truthy].
    + rewrite IH. split; [intros H; constructor; [reflexivity | exact H] |].
      intros H. inversion H; assumption.
    + split; [lia |]. intros H. inversion H; discriminate.
Qed.

Lemma truediv_range (a b : Z) (q : Q) :
  (0 <= a <= b)%Z -> (0 < b)%Z -> truediv a b = Some q ->
  (0 <= q)%Q /\ (q <= 1)%Q /\ (q == 0 <-> a = 0%Z)%Q.
Proof.
  intros Ha Hb. unfold truediv.
  destruct (Z.eqb_spec b 0) as [-> | _]; [lia |]. intros [= <-].
  destruct b as [| p | p]; try lia.
  unfold Qdiv, Qinv, Qmult, Qle, Qeq, inject_Z. simpl.
  repeat split; try lia.
Qed.

(** X15. [eval_outputs] never raises, and its error rate lies between 0
    and 1; it is 0 exactly when no error message is non-empty, the empty
    list of messages included. *)
Theorem eval_outputs_rate_range (path metric : Type)
    (compute_metrics :
       path -> path -> path -> path -> metric * metric * metric * list str)
    (gt_sql model_sql gt_rec model_rec : path) (queries : list str) :
  exists error_rate,
    eval_outputs path metric compute_metrics gt_sql model_sql gt_rec model_rec
      queries
    = Some (compute_metrics gt_sql model_sql gt_rec model_rec, error_rate) /\
    (0 <= error_rate)%Q /\ (error_rate <= 1)%Q /\
    (error_rate == 0 <->
     Forall (fun msg => msg = [])
       (snd (compute_metrics gt_sql model_sql gt_rec model_rec)))%Q.
Proof.
  unfold eval_outputs.
  destruct (compute_metrics gt_sql model_sql gt_rec model_rec)
    as [[[sql_em record_em] record_f1] msgs].
  simpl snd. unfold error_rate_of.
  destruct msgs as [| msg rest].
  - exists (inject_Z 0). repeat split; try (unfold Qle; simpl; lia);
      intros; try constructor; reflexivity.
  - assert (Hpos : (Z.of_nat (length (msg :: rest)) >? 0)%Z = true)
      by (apply Z.gtb_lt; cbn [length]; lia).
    rewrite Hpos.
    pose proof (count_errors_range (msg :: rest)) as Hrange.
    assert (Hlen : (0 < Z.of_nat (length (msg :: rest)))%Z)
      by (cbn [length]; lia).
    destruct (truediv (count_errors (msg :: rest))
                (Z.of_nat (length (msg :: rest)))) as [q |] eqn:Hq.
    + destruct (truediv_range _ _ q Hrange Hlen Hq) as [H0 [H1 Hz]].
      exists q. repeat split; try assumption.
      * intros Hq0. apply count_errors_zero, Hz, Hq0.
      * intros Hall. apply Hz, count_errors_zero, Hall.
    + unfold truediv in Hq.
      destruct (Z.eqb_spec (Z.of_nat (length (msg :: rest))) 0);
        [lia | discriminate].
Qed.

(* ================================================================= *)
(** ** Further properties of SQL extraction *)

Lemma contains_false_prefix (pat a b : str) :
  contains pat (a ++ b) = false -> contains pat a = false.
Proof.
  intros Hab. destruct (contains pat a) eqn:Ha; [| reflexivity].
  apply contains_true in Ha. destruct Ha as [pre [post ->]].
  rewrite <- !app_assoc, contains_occurrence in Hab. discriminate.
Qed.

Lemma contains_snoc_other (pat q : str) (c : ascii) :
  pat <> [] -> ~ In c pat ->
  contains pat q = false -> contains pat (q ++ [c]) = false.
Proof.
  intros Hpat Hc Hq. destruct (contains pat (q ++ [c])) eqn:Hqc; [| reflexivity].
  apply contains_true in Hqc. destruct Hqc as [pre [post Heq]].
  destruct (rev post) as [| d rpost] eqn:Hrev.
  - apply (f_equal (@rev ascii)) in Hrev. rewrite rev_involutive in Hrev.
    simpl in Hrev. subst post. rewrite app_nil_r in Heq.
    destruct (rev pat) as [| e rpat] eqn:Hrp.
    + apply (f_equal (@rev ascii)) in Hrp. rewrite rev_involutive in Hrp.
      contradiction.
    + apply (f_equal (@rev ascii)) in Hrp. rewrite rev_involutive in Hrp.
      simpl in Hrp. subst pat. rewrite app_assoc in Heq.
      apply app_inj_tail in Heq. destruct Heq as [_ <-].
      exfalso. apply Hc. apply in_or_app. right. left. reflexivity.
  - apply (f_equal (@rev ascii)) in Hrev. rewrite rev_involutive in Hrev.
    simpl in Hrev. subst post. rewrite !app_assoc in Heq.
    apply app_inj_tail in Heq. destruct Heq as [-> _].
    rewrite <- app_assoc, contains_occurrence in Hq. discriminate.
Qed.

Lemma lstrip_suffix (s : str) : exists ws, s = ws ++ lstrip s.
Proof.
  induction s as [| c s [ws IH]]; [exists []; reflexivity |].
  simpl. destruct (is_space c).
  - exists (c :: ws). simpl. rewrite <- IH. reflexivity.
  - exists []. reflexivity.
Qed.

Lemma rstrip_prefix (s : str) : exists ws, s = rstrip s ++ ws.
Proof.
  unfold rstrip. destruct (lstrip_suffix (rev s)) as [ws Hws].
  exists (rev ws). rewrite <- rev_app_distr, <- Hws, rev_involutive.
  reflexivity.
Qed.

Lemma strip_contains_false (pat s : str) :
  contains pat s = false -> contains pat (strip s) = false.
Proof.
  intros Hs. unfold strip.
  destruct (lstrip_suffix s) as [ws Hws]. rewrite Hws in Hs.
  apply contains_false_suffix in Hs.
  destruct (rstrip_prefix (lstrip s)) as [ws' Hws']. rewrite Hws' in Hs.
  exact (contains_false_prefix _ _ _ Hs).
Qed.

(** Whitespace after [re.sub(r'\s+', ' ', q)]: plain spaces, one at a time. *)
Lemma sub_ws_plain_spaces (in_run : bool) (s : str) :
  Forall (fun c => is_space c = true -> c = " ") (sub_ws in_run s).
Proof.
  revert in_run. induction s as [| c s IH]; intros in_run; simpl;
    [constructor |].
  destruct (is_space c) eqn:Hc.
  - destruct in_run; [apply IH |]. constructor; [reflexivity | apply IH].
  - constructor; [congruence | apply IH].
Qed.

Lemma sub_ws_in_run_head (s : str) (c : ascii) (r : str) :
  sub_ws true s = c :: r -> is_space c = false.
Proof.
  induction s as [| d s IH]; simpl; [discriminate |].
  destruct (is_space d) eqn:Hd; [exact IH |].
  intros [= <- _]. exact Hd.
Qed.

Lemma strip_prefix_double_space (c : ascii) (x : str) :
  strip_prefix (lit "  ") (c :: x) =
    if Ascii.eqb " " c then
      match x with
      | d :: r => if Ascii.eqb " " d then Some r else None
      | [] => None
      end
    else None.
Proof. reflexivity. Qed.

Lemma sub_ws_no_double_space (in_run : bool) (s : str) :
  contains (lit "  ") (sub_ws in_run s) = false.
Proof.
  revert in_run. induction s as [| c s IH]; intros in_run; cbn [sub_ws];
    [reflexivity |].
  destruct (is_space c) eqn:Hc.
  - destruct in_run; [apply IH |].
    pose proof (IH true) as IHt.
    rewrite contains_eq, strip_prefix_double_space.
    destruct (sub_ws true s) as [| d r] eqn:Hsub; [reflexivity |].
    pose proof (sub_ws_in_run_head s d r Hsub) as Hd.
    change (Ascii.eqb " " " ") with true. cbv iota.
    destruct (Ascii.eqb_spec " " d) as [<- | _]; [discriminate Hd | exact IHt].
  - rewrite contains_eq, strip_prefix_double_space.
    destruct (Ascii.eqb_spec " " c) as [<- | _]; [discriminate Hc | apply IH].
Qed.

Lemma clean_query_shape (q : str) :
  Forall (fun c => is_space c = true -> c = " ") (clean_query q) /\
  contains (lit "  ") (clean_query q) = false /\
  no_outer_space (clean_query q).
Proof.
  unfold clean_query. split; [| split].
  - apply strip_Forall, sub_ws_plain_spaces.
  - apply strip_contains_false, sub_ws_no_double_space.
  - apply strip_no_outer_space.
Qed.

(** X16. Whatever the response, the extracted query is empty or ends with
    a semicolon; its only whitespace characters are plain spaces, never two
    in a row and none at either end.  So it holds no newline and fits one
    line of a file, and stripping it again changes nothing. *)
Theorem extract_sql_query_shape (response : str) :
  let query := extract_sql_query response in
  (query = [] \/ endswith_char query ";" = true) /\
  Forall (fun c => is_space c = true -> c = " ") query /\
  contains (lit "  ") query = false /\
  no_outer_space query /\
  ~ In "010" query /\
  strip query = query.
Proof.
  intros query. subst query. unfold extract_sql_query.
  set (q := clean_query
              (select_candidate (cut_at_label (strip_special_tokens response)))).
  destruct (clean_query_shape
              (select_candidate (cut_at_label (strip_special_tokens response))))
    as [Hplain [Hdouble [Hhead Hlast]]].
  fold q in Hplain, Hdouble, Hhead, Hlast.
  assert (Hshape :
            (terminate q = [] \/ endswith_char (terminate q) ";" = true) /\
            Forall (fun c => is_space c = true -> c = " ") (terminate q) /\
            contains (lit "  ") (terminate q) = false /\
            no_outer_space (terminate q)).
  { destruct (terminate_cases q) as [[Hne [_ Ht]] | [Hcase Ht]]; rewrite Ht.
    - split; [right; apply endswith_char_snoc | split; [| split]].
      + apply Forall_app. split; [exact Hplain |].
        constructor; [discriminate | constructor].
      + apply contains_snoc_other;
          [discriminate | vm_compute; intuition discriminate | exact Hdouble].
      + split.
        * intros c r Heq. destruct q as [| d q']; [contradiction |].
          injection Heq as <- _. exact (Hhead d q' eq_refl).
        * intros p c Heq. apply app_inj_tail in Heq. destruct Heq as [_ <-].
          reflexivity.
    - split; [| split; [exact Hplain | split; [exact Hdouble |]]].
      + destruct Hcase as [-> | He]; [left; reflexivity | right; exact He].
      + split; assumption. }
  destruct Hshape as [Hend [Hp [Hd Hno]]].
  repeat split; try assumption; try apply Hno.
  - intros Hin. rewrite Forall_forall in Hp.
    specialize (Hp _ Hin eq_refl). discriminate Hp.
  - apply strip_fixed. exact Hno.
Qed.

(** *** Responses that hold nothing *)

Lemma cut_at_label_Forall (P : ascii -> Prop) (t : str) :
  (forall c, P c -> P (upper_char c)) ->
  Forall P t -> Forall P (cut_at_label t).
Proof.
  intros Hup H. unfold cut_at_label.
  destruct (contains (lit "SQL:") (upper t)); [| exact H].
  apply last_Forall, split_fuel_Forall; [constructor |].
  unfold upper. apply Forall_map.
  eapply Forall_impl; [| exact H]. exact Hup.
Qed.

Lemma lstrip_all_space (s : str) :
  Forall (fun c => is_space c = true) s -> lstrip s = [].
Proof.
  induction 1 as [| c s Hc _ IH]; [reflexivity |].
  simpl. rewrite Hc. exact IH.
Qed.

Lemma strip_all_space (s : str) :
  Forall (fun c => is_space c = true) s -> strip s = [].
Proof. intros H. unfold strip. rewrite (lstrip_all_space s H). reflexivity. Qed.

Lemma extract_sql_query_all_space (response : str) :
  Forall (fun c => is_space c = true) response ->
  extract_sql_query response = [].
Proof.
  intros Hsp.
  assert (Hcut : Forall (fun c => is_space c = true)
                   (cut_at_label (strip_special_tokens response))).
  { apply cut_at_label_Forall;
      [intros c Hc; rewrite upper_char_is_space; exact Hc |].
    apply strip_special_tokens_Forall. exact Hsp. }
  assert (Hsemi : Forall (fun c => c <> ";")
                    (cut_at_label (strip_special_tokens response))).
  { eapply Forall_impl; [| exact Hcut]. intros c Hc ->. discriminate Hc. }
  unfold extract_sql_query, select_candidate.
  rewrite (re_search_select_no_semicolon _ Hsemi).
  assert (Hclean : clean_query (cut_at_label (strip_special_tokens response))
                   = []).
  { unfold clean_query. apply strip_all_space, sub_ws_Forall; [reflexivity |].
    apply replace_Forall; [repeat constructor |].
    apply sub_fences_fuel_Forall. exact Hcut. }
  rewrite Hclean. reflexivity.
Qed.

(** X17. A response made of whitespace only, the empty response included,
    gives the empty query, without a semicolon.  So when the model only
    echoes the prompt and adds whitespace, the loop records an empty raw
    output and an empty query. *)
Theorem extract_sql_query_blank (response prompt : str) :
  Forall (fun c => is_space c = true) response ->
  extract_sql_query response = [] /\
  (response <> [] ->
   strip_prompt prompt (prompt ++ response) = [] /\
   extract_sql_query (strip_prompt prompt (prompt ++ response)) = []).
Proof.
  intros Hsp. split; [apply extract_sql_query_all_space; exact Hsp |].
  intros Hne.
  assert (Hraw : strip_prompt prompt (prompt ++ response) = []).
  { unfold strip_prompt.
    assert (Hlt : (length prompt <? length (prompt ++ response)) = true).
    { apply Nat.ltb_lt. rewrite length_app.
      destruct response; [contradiction | simpl; lia]. }
    rewrite Hlt, skipn_app, Nat.sub_diag, skipn_all. simpl.
    apply strip_all_space. exact Hsp. }
  rewrite Hraw. split; reflexivity.
Qed.

Lemma extract_sql_query_blank_witness :
  extract_sql_query (lit "   ") = [].
Proof.
  apply (proj1 (extract_sql_query_blank (lit "   ") (lit "Q: count")
                  ltac:(repeat constructor))).
Defined.

(** *** Special-token markers *)

Lemma replace_fuel_no_match (n : nat) (old new s : str) :
  contains old s = false -> replace_fuel n old new s = s.
Proof.
  revert s. induction n as [| n IH]; intros s Hs; [reflexivity |].
  simpl. rewrite (contains_false_strip_prefix _ _ Hs).
  destruct s as [| c s]; [reflexivity |].
  rewrite IH; [reflexivity |].
  rewrite contains_eq in Hs.
  destruct (strip_prefix old (c :: s)); [discriminate | exact Hs].
Qed.

Lemma contains_skip (c0 : ascii) (pat a s : str) :
  ~ In c0 a -> contains (c0 :: pat) (a ++ s) = contains (c0 :: pat) s.
Proof.
  induction a as [| c a IH]; intros Hno; [reflexivity |].
  cbn [app]. rewrite contains_eq. cbn [strip_prefix].
  destruct (Ascii.eqb_spec c0 c) as [-> | _].
  - exfalso. apply Hno. left. reflexivity.
  - apply IH. intros Hin. apply Hno. right. exact Hin.
Qed.

Lemma contains_absent (c0 : ascii) (pat b : str) :
  ~ In c0 b -> contains (c0 :: pat) b = false.
Proof.
  intros Hno. rewrite <- (app_nil_r b), contains_skip by exact Hno.
  reflexivity.
Qed.

Lemma no_marker_in (pat tl a b : str) :
  strip_prefix ("<" :: pat) (("<" :: tl) ++ b) = None ->
  ~ In "<" tl -> ~ In "<" a -> ~ In "<" b ->
  contains ("<" :: pat) (a ++ ("<" :: tl) ++ b) = false.
Proof.
  intros Hp Htl Ha Hb. rewrite contains_skip by exact Ha.
  rewrite contains_eq, Hp. cbn [app].
  rewrite contains_skip by exact Htl. apply contains_absent. exact Hb.
Qed.

Lemma replace_fuel_S (n : nat) (old new s : str) :
  replace_fuel (S n) old new s =
    match strip_prefix old s with
    | Some rest => new ++ replace_fuel n old new rest
    | None => match s with
              | [] => []
              | c :: s' => c :: replace_fuel n old new s'
              end
    end.
Proof. reflexivity. Qed.

Lemma replace_fuel_skip (c0 : ascii) (pat new a s : str) (n : nat) :
  ~ In c0 a ->
  replace_fuel (length a + n) (c0 :: pat) new (a ++ s)
  = a ++ replace_fuel n (c0 :: pat) new s.
Proof.
  induction a as [| c a IH]; intros Hno; [reflexivity |].
  cbn [length Nat.add app]. rewrite replace_fuel_S. cbn [strip_prefix].
  destruct (Ascii.eqb_spec c0 c) as [-> | _].
  - exfalso. apply Hno. left. reflexivity.
  - rewrite IH; [reflexivity |]. intros Hin. apply Hno. right. exact Hin.
Qed.

Lemma replace_single (pat a b : str) :
  ~ In "<" a -> ~ In "<" b ->
  replace ("<" :: pat) [] (a ++ ("<" :: pat) ++ b) = a ++ b.
Proof.
  intros Ha Hb. unfold replace.
  rewrite length_app, (replace_fuel_skip "<" pat [] a _ _ Ha).
  rewrite length_app. cbn [length Nat.add].
  rewrite replace_fuel_S, strip_prefix_app.
  rewrite (replace_fuel_absent _ _ _ _ _ Hb). reflexivity.
Qed.

Lemma replace_no_match (old new s : str) :
  contains old s = false -> replace old new s = s.
Proof. apply replace_fuel_no_match. Qed.

Lemma replace_absent (pat new s : str) :
  ~ In "<" s -> replace ("<" :: pat) new s = s.
Proof. apply replace_fuel_absent. Qed.

(** The markers that [extract_sql_query] removes. *)
Definition special_tokens : list str :=
  [lit "<bos>"; lit "<eos>"; lit "<s>"; lit "</s>"].

Lemma strip_special_tokens_single (mk a b : str) :
  In mk special_tokens ->
  ~ In "<" a -> ~ In "<" b ->
  strip_special_tokens (a ++ mk ++ b) = a ++ b.
Proof.
  intros Hmk Ha Hb.
  assert (Hab : ~ In "<" (a ++ b)).
  { intros Hin. apply in_app_or in Hin. tauto. }
  unfold strip_special_tokens, PromptingUtils.BOS, PromptingUtils.EOS.
  change (lit "<bos>") with ("<" :: lit "bos>").
  change (lit "<eos>") with ("<" :: lit "eos>").
  change (lit "<s>") with ("<" :: lit "s>").
  change (lit "</s>") with ("<" :: lit "/s>").
  unfold special_tokens in Hmk.
  change (lit "<bos>") with ("<" :: lit "bos>") in Hmk.
  change (lit "<eos>") with ("<" :: lit "eos>") in Hmk.
  change (lit "<s>") with ("<" :: lit "s>") in Hmk.
  change (lit "</s>") with ("<" :: lit "/s>") in Hmk.
  assert (Htl : forall tl, In tl [lit "bos>"; lit "eos>"; lit "s>"; lit "/s>"] ->
                           ~ In "<" tl).
  { intros tl [<- | [<- | [<- | [<- | []]]]]; vm_compute; intuition discriminate. }
  destruct Hmk as [<- | [<- | [<- | [<- | []]]]].
  - rewrite (replace_single (lit "bos>") a b Ha Hb).
    repeat rewrite (replace_absent _ _ _ Hab). reflexivity.
  - rewrite (replace_no_match ("<" :: lit "bos>") [] (a ++ ("<" :: lit "eos>") ++ b))
      by (apply no_marker_in; try assumption;
          [reflexivity | apply Htl; simpl; tauto]).
    rewrite (replace_single (lit "eos>") a b Ha Hb).
    repeat rewrite (replace_absent _ _ _ Hab). reflexivity.
  - rewrite (replace_no_match ("<" :: lit "bos>") [] (a ++ ("<" :: lit "s>") ++ b))
      by (apply no_marker_in; try assumption;
          [reflexivity | apply Htl; simpl; tauto]).
    rewrite (replace_no_match ("<" :: lit "eos>") [] (a ++ ("<" :: lit "s>") ++ b))
      by (apply no_marker_in; try assumption;
          [reflexivity | apply Htl; simpl; tauto]).
    rewrite (replace_single (lit "s>") a b Ha Hb).
    repeat rewrite (replace_absent _ _ _ Hab). reflexivity.
  - rewrite (replace_no_match ("<" :: lit "bos>") [] (a ++ ("<" :: lit "/s>") ++ b))
      by (apply no_marker_in; try assumption;
          [reflexivity | apply Htl; simpl; tauto]).
    rewrite (replace_no_match ("<" :: lit "eos>") [] (a ++ ("<" :: lit "/s>") ++ b))
      by (apply no_marker_in; try assumption;
          [reflexivity | apply Htl; simpl; tauto]).
    rewrite (replace_no_match ("<" :: lit "s>") [] (a ++ ("<" :: lit "/s>") ++ b))
      by (apply no_marker_in; try assumption;
          [reflexivity | apply Htl; simpl; tauto]).
    rewrite (replace_single (lit "/s>") a b Ha Hb).
    repeat rewrite (replace_absent _ _ _ Hab). reflexivity.
Qed.

(** X18. One special-token marker ("<bos>", "<eos>", "<s>" or "</s>")
    inside a text that holds no "<" otherwise is removed without a trace:
    the result is the result for the text without the marker. *)
Theorem extract_sql_query_marker_transparent (mk a b : str) :
  In mk special_tokens ->
  ~ In "<" a -> ~ In "<" b ->
  strip_special_tokens (a ++ mk ++ b) = a ++ b /\
  extract_sql_query (a ++ mk ++ b) = extract_sql_query (a ++ b).
Proof.
  intros Hmk Ha Hb.
  pose proof (strip_special_tokens_single mk a b Hmk Ha Hb) as Hstrip.
  split; [exact Hstrip |].
  assert (Hab : ~ In "<" (a ++ b)).
  { intros Hin. apply in_app_or in Hin. tauto. }
  unfold extract_sql_query.
  rewrite Hstrip, (strip_special_tokens_id (a ++ b) Hab). reflexivity.
Qed.

Lemma extract_sql_query_marker_transparent_witness :
  extract_sql_query (lit "select a" ++ lit "</s>" ++ lit " from t;")
  = extract_sql_query (lit "select a" ++ lit " from t;").
Proof.
  apply (extract_sql_query_marker_transparent (lit "</s>") (lit "select a")
           (lit " from t;")).
  - right. right. right. left. reflexivity.
  - vm_compute. intuition discriminate.
  - vm_compute. intuition discriminate.
Defined.

(** *** Code fences *)

Lemma fence_prefix_3 (c : ascii) (x : str) :
  strip_prefix (lit "```") (c :: x)
  = if Ascii.eqb "`" c then strip_prefix (lit "``") x else None.
Proof. reflexivity. Qed.

Lemma fence_prefix_2 (c : ascii) (x : str) :
  strip_prefix (lit "``") (c :: x)
  = if Ascii.eqb "`" c then strip_prefix (lit "`") x else None.
Proof. reflexivity. Qed.

Lemma fence_prefix_1 (c : ascii) (x : str) :
  strip_prefix (lit "`") (c :: x) = if Ascii.eqb "`" c then Some x else None.
Proof. reflexivity. Qed.

Lemma sub_fences_fuel_nil (n : nat) : sub_fences_fuel n [] = [].
Proof. destruct n; reflexivity. Qed.

Lemma sub_fences_fuel_keep (n : nat) (c : ascii) (s : str) :
  strip_prefix (lit "```") (c :: s) = None ->
  sub_fences_fuel (S n) (c :: s) = c :: sub_fences_fuel n s.
Proof. intros H. rewrite sub_fences_fuel_S, H. reflexivity. Qed.

(** After a kept backtick the output cannot go on with two more: the input
    would have had three in a row there. *)
Lemma sub_fences_fuel_after_backtick (n : nat) (s : str) :
  length s <= n ->
  strip_prefix (lit "``") s = None ->
  strip_prefix (lit "``") (sub_fences_fuel n s) = None.
Proof.
  intros Hlen Hp.
  destruct s as [| d s]; [rewrite sub_fences_fuel_nil; reflexivity |].
  destruct n as [| n]; [simpl in Hlen; lia |].
  rewrite fence_prefix_2 in Hp.
  destruct (Ascii.eqb_spec "`" d) as [<- | Hd].
  - rewrite sub_fences_fuel_keep
      by (rewrite fence_prefix_3; change (Ascii.eqb "`" "`") with true;
          cbv iota; destruct s as [| e s]; [reflexivity |];
          rewrite fence_prefix_1 in Hp; rewrite fence_prefix_2;
          destruct (Ascii.eqb "`" e); [discriminate Hp | reflexivity]).
    rewrite fence_prefix_2. change (Ascii.eqb "`" "`") with true. cbv iota.
    destruct s as [| e s]; [rewrite sub_fences_fuel_nil; reflexivity |].
    rewrite fence_prefix_1 in Hp.
    destruct (Ascii.eqb_spec "`" e) as [<- | He]; [discriminate Hp |].
    destruct n as [| n]; [simpl in Hlen; lia |].
    rewrite sub_fences_fuel_keep.
    + rewrite fence_prefix_1.
      destruct (Ascii.eqb_spec "`" e); [contradiction | reflexivity].
    + rewrite fence_prefix_3.
      destruct (Ascii.eqb_spec "`" e); [contradiction | reflexivity].
  - rewrite sub_fences_fuel_keep.
    + rewrite fence_prefix_2.
      destruct (Ascii.eqb_spec "`" d); [contradiction | reflexivity].
    + rewrite fence_prefix_3.
      destruct (Ascii.eqb_spec "`" d); [contradiction | reflexivity].
Qed.

Lemma sub_fences_fuel_no_fence (n : nat) (s : str) :
  length s <= n -> contains (lit "```") (sub_fences_fuel n s) = false.
Proof.
  revert s. induction n as [| n IH]; intros s Hlen.
  - destruct s; [reflexivity | simpl in Hlen; lia].
  - rewrite sub_fences_fuel_S.
    destruct (strip_prefix (lit "```") s) as [rest |] eqn:Hp.
    + pose proof (strip_prefix_shorter _ _ _ _ Hp) as Hrest.
      destruct (strip_prefix_ci (lit "sql") rest) as [[m rest'] |] eqn:Hq.
      * apply strip_prefix_ci_Some in Hq. destruct Hq as [Hr _].
        apply IH. rewrite Hr, length_app in Hrest. lia.
      * apply IH. lia.
    + destruct s as [| c s]; [reflexivity |].
      simpl in Hlen. rewrite contains_eq, fence_prefix_3.
      rewrite fence_prefix_3 in Hp.
      destruct (Ascii.eqb "`" c); [| apply IH; lia].
      rewrite (sub_fences_fuel_after_backtick n s) by (try lia; exact Hp).
      apply IH. lia.
Qed.

Lemma contains_fence_map (f : ascii -> ascii) (s : str) :
  (forall c, f c = "`" -> c = "`") ->
  contains (lit "```") s = false ->
  contains (lit "```") (map f s) = false.
Proof.
  intros Hf Hs.
  destruct (contains (lit "```") (map f s)) eqn:Hm; [| reflexivity].
  apply contains_true in Hm. destruct Hm as [pre [post Hm]].
  apply map_eq_app in Hm. destruct Hm as [pre' [rest [-> [_ Hrest]]]].
  apply map_eq_app in Hrest. destruct Hrest as [m [post' [-> [Hm _]]]].
  destruct m as [| a [| b [| c [| d m]]]]; try discriminate Hm.
  injection Hm as Ha Hb Hc.
  apply Hf in Ha. apply Hf in Hb. apply Hf in Hc. subst a b c.
  change ["`"; "`"; "`"] with (lit "```") in Hs.
  rewrite contains_occurrence in Hs. discriminate Hs.
Qed.

Lemma sub_ws_after_backtick (x r : str) :
  strip_prefix (lit "``") (sub_ws false x) = Some r ->
  exists r', strip_prefix (lit "``") x = Some r'.
Proof.
  destruct x as [| d x]; [discriminate |]. cbn [sub_ws].
  destruct (is_space d) eqn:Hd; [discriminate |].
  rewrite !fence_prefix_2.
  destruct (Ascii.eqb "`" d); [| discriminate].
  destruct x as [| e x]; [discriminate |]. cbn [sub_ws].
  destruct (is_space e) eqn:He; [discriminate |].
  rewrite !fence_prefix_1.
  destruct (Ascii.eqb "`" e); [| discriminate].
  intros _. exists x. reflexivity.
Qed.

Lemma sub_ws_no_fence (in_run : bool) (s : str) :
  contains (lit "```") s = false ->
  contains (lit "```") (sub_ws in_run s) = false.
Proof.
  revert in_run. induction s as [| c s IH]; intros in_run Hs; [reflexivity |].
  rewrite contains_eq in Hs.
  destruct (strip_prefix (lit "```") (c :: s)) eqn:Hp; [discriminate |].
  cbn [sub_ws]. destruct (is_space c) eqn:Hc.
  - destruct in_run; [apply IH; exact Hs |].
    rewrite contains_eq, fence_prefix_3.
    change (Ascii.eqb "`" " ") with false. cbv iota. apply IH. exact Hs.
  - rewrite contains_eq, fence_prefix_3. rewrite fence_prefix_3 in Hp.
    destruct (Ascii.eqb "`" c); [| apply IH; exact Hs].
    destruct (strip_prefix (lit "``") (sub_ws false s)) as [r |] eqn:Hsub;
      [| apply IH; exact Hs].
    apply sub_ws_after_backtick in Hsub. destruct Hsub as [r' Hr'].
    rewrite Hr' in Hp. discriminate Hp.
Qed.

(** X19. No extracted query holds a Markdown code fence: wherever three
    backticks stood in the candidate they are gone, and neither the removal
    nor the cleaning that follows brings three backticks together. *)
Theorem extract_sql_query_no_fence (response : str) :
  contains (lit "```") (extract_sql_query response) = false.
Proof.
  unfold extract_sql_query.
  set (candidate := select_candidate
                      (cut_at_label (strip_special_tokens response))).
  assert (Hclean : contains (lit "```") (clean_query candidate) = false).
  { unfold clean_query.
    change (lit (String "010" EmptyString)) with ["010"].
    change (lit " ") with [" "].
    rewrite replace_char.
    apply strip_contains_false, sub_ws_no_fence, contains_fence_map.
    - intros c. unfold swap_char.
      destruct (Ascii.eqb_spec "010" c) as [<- | _];
        [discriminate | intros H; exact H].
    - apply sub_fences_fuel_no_fence. lia. }
  destruct (terminate_cases (clean_query candidate)) as [[_ [_ Ht]] | [_ Ht]];
    rewrite Ht; [| exact Hclean].
  apply contains_snoc_other;
    [discriminate | vm_compute; intuition discriminate | exact Hclean].
Qed.

Example extract_sql_query_many_backticks :
  extract_sql_query (lit "`` ```sql` x ````") = lit "`` ` x `;".
Proof. reflexivity. Qed.

(* ================================================================= *)
(** ** The files of the prompting data *)

Section PromptingDataFacts.

Variable read_text : str -> option str.
Variable path_join : str -> str -> str.

(** The files [load_prompting_data] opens. *)
Definition prompting_files : list str :=
  [lit "train.nl"; lit "train.sql"; lit "dev.nl"; lit "dev.sql"; lit "test.nl"].

(** X20. [load_prompting_data] raises exactly when reading one of the five
    files train.nl, train.sql, dev.nl, dev.sql and test.nl of the folder
    raises, be it that the file cannot be opened or that its content cannot
    be read; no file test.sql is asked for.  Otherwise it returns the lines
    of these files, in this order, and no line it returns has whitespace at
    either end or holds a newline. *)
Theorem load_prompting_data_outcomes (data_folder : str) :
  (load_prompting_data read_text path_join data_folder = None <->
   Exists (fun name => read_text (path_join data_folder name) = None)
     prompting_files) /\
  (forall train_x train_y dev_x dev_y test_x,
     load_prompting_data read_text path_join data_folder
     = Some (train_x, train_y, dev_x, dev_y, test_x) ->
     map (fun name => load_lines read_text (path_join data_folder name))
       prompting_files
     = [Some train_x; Some train_y; Some dev_x; Some dev_y; Some test_x] /\
     Forall (fun l => no_outer_space l /\ ~ In "010" l /\ strip l = l)
       (train_x ++ train_y ++ dev_x ++ dev_y ++ test_x)).
Proof.
  unfold load_prompting_data, prompting_files.
  destruct (load_lines read_text (path_join data_folder (lit "train.nl")))
    as [l1 |] eqn:H1;
  [destruct (load_lines read_text (path_join data_folder (lit "train.sql")))
     as [l2 |] eqn:H2;
   [destruct (load_lines read_text (path_join data_folder (lit "dev.nl")))
      as [l3 |] eqn:H3;
    [destruct (load_lines read_text (path_join data_folder (lit "dev.sql")))
       as [l4 |] eqn:H4;
     [destruct (load_lines read_text (path_join data_folder (lit "test.nl")))
        as [l5 |] eqn:H5 | ] | ] | ] | ].
  - split.
    + split; [discriminate |]. intros Hex.
      assert (Hopen : forall name l,
                load_lines read_text (path_join data_folder name) = Some l ->
                read_text (path_join data_folder name) <> None).
      { unfold load_lines. intros name l H Hn. rewrite Hn in H. discriminate. }
      apply Exists_exists in Hex. destruct Hex as [name [Hname Hnone]].
      exfalso.
      destruct Hname as [<- | [<- | [<- | [<- | [<- | []]]]]];
        first [ exact (Hopen _ _ H1 Hnone) | exact (Hopen _ _ H2 Hnone)
              | exact (Hopen _ _ H3 Hnone) | exact (Hopen _ _ H4 Hnone)
              | exact (Hopen _ _ H5 Hnone) ].
    + intros tx ty dx dy tt [= <- <- <- <- <-].
      split; [cbn [map]; rewrite H1, H2, H3, H4, H5; reflexivity |].
      repeat (apply Forall_app; split); apply Forall_forall; intros l Hl;
        first [ exact (load_lines_lines _ _ _ _ H1 Hl)
              | exact (load_lines_lines _ _ _ _ H2 Hl)
              | exact (load_lines_lines _ _ _ _ H3 Hl)
              | exact (load_lines_lines _ _ _ _ H4 Hl)
              | exact (load_lines_lines _ _ _ _ H5 Hl) ].
  - split; [| discriminate]. split; [intros _ | reflexivity].
    unfold load_lines in H5.
    destruct (read_text (path_join data_folder (lit "test.nl"))) eqn:Hr;
      [discriminate |].
    do 4 apply Exists_cons_tl. apply Exists_cons_hd. exact Hr.
  - split; [| discriminate]. split; [intros _ | reflexivity].
    unfold load_lines in H4.
    destruct (read_text (path_join data_folder (lit "dev.sql"))) eqn:Hr;
      [discriminate |].
    do 3 apply Exists_cons_tl. apply Exists_cons_hd. exact Hr.
  - split; [| discriminate]. split; [intros _ | reflexivity].
    unfold load_lines in H3.
    destruct (read_text (path_join data_folder (lit "dev.nl"))) eqn:Hr;
      [discriminate |].
    do 2 apply Exists_cons_tl. apply Exists_cons_hd. exact Hr.
  - split; [| discriminate]. split; [intros _ | reflexivity].
    unfold load_lines in H2.
    destruct (read_text (path_join data_folder (lit "train.sql"))) eqn:Hr;
      [discriminate |].
    apply Exists_cons_tl. apply Exists_cons_hd. exact Hr.
  - split; [| discriminate]. split; [intros _ | reflexivity].
    unfold load_lines in H1.
    destruct (read_text (path_join data_folder (lit "train.nl"))) eqn:Hr;
      [discriminate |].
    apply Exists_cons_hd. exact Hr.
Qed.

End PromptingDataFacts.

Definition sample_join (folder name : str) : str := folder ++ lit "/" ++ name.

Lemma load_prompting_data_outcomes_witness :
  load_prompting_data sample_files sample_join (lit "data") = None.
Proof.
  apply (proj1 (load_prompting_data_outcomes sample_files sample_join
                  (lit "data"))).
  left. reflexivity.
Defined.

(* ================================================================= *)
(** ** What the steps of extraction are to do

    The steps of [extract_sql_query] are stated here without the functions
    that carry them out, and each function is shown to do what is stated. *)

















(** *** The label *)







(** *** The code fences *)











(** *** The whitespace *)

(** The words of a text: its maximal runs of characters that are not
    whitespace, in order; [cur] holds the word being read, reversed. *)
Fixpoint words_from (cur s : str) : list str :=
  match s with
  | [] => match cur with
          | [] => []
          | _ :: _ => [rev cur]
          end
  | c :: s' =>
      if is_space c then
        match cur with
        | [] => words_from [] s'
        | _ :: _ => rev cur :: words_from [] s'
        end
      else words_from (c :: cur) s'
  end.

Definition words (s : str) : list str := words_from [] s.

(** The words again, with one space between two of them. *)
Fixpoint unwords (ws : list str) : str :=
  match ws with
  | [] => []
  | w :: ws' =>
      match ws' with
      | [] => w
      | _ :: _ => w ++ " " :: unwords ws'
      end
  end.

Lemma unwords_cons (w w' : str) (ws : list str) :
  unwords (w :: w' :: ws) = w ++ " " :: unwords (w' :: ws).
Proof. reflexivity. Qed.



Lemma words_from_space_free (s : str) :
  forall cur,
    Forall (fun c => is_space c = false) cur ->
    Forall (Forall (fun c => is_space c = false)) (words_from cur s).
Proof.
  induction s as [| c s IH]; intros cur Hcur.
  - destruct cur as [| d cur]; [constructor |].
    constructor; [| constructor]. apply Forall_rev, Hcur.
  - cbn [words_from]. destruct (is_space c) eqn:Hc.
    + destruct cur as [| d cur]; [apply IH; constructor |].
      constructor; [apply Forall_rev, Hcur | apply IH; constructor].
    + apply IH. constructor; assumption.
Qed.

(** A word is read as a whole. *)
Lemma words_from_word (w rest : str) :
  Forall (fun c => is_space c = false) w ->
  forall cur, words_from cur (w ++ rest) = words_from (rev w ++ cur) rest.
Proof.
  induction 1 as [| c w Hc _ IH]; intros cur; [reflexivity |].
  cbn [app words_from]. rewrite Hc, IH. cbn [rev].
  rewrite <- app_assoc. reflexivity.
Qed.

(** [words] undoes [unwords]: a text made of words and single spaces is
    read back as these words. *)
Lemma words_unwords (ws : list str) :
  Forall (fun w => w <> [] /\ Forall (fun c => is_space c = false) w) ws ->
  words (unwords ws) = ws.
Proof.
  unfold words. induction 1 as [| w ws [Hne Hw] Hws IH]; [reflexivity |].
  assert (Hrev : exists d r, rev w = d :: r).
  { destruct (rev w) as [| d r] eqn:Hr; [| exists d, r; reflexivity].
    exfalso. apply Hne. rewrite <- (rev_involutive w), Hr. reflexivity. }
  destruct Hrev as [d [r Hrev]].
  destruct ws as [| w' ws].
  - cbn [unwords]. rewrite <- (app_nil_r w) at 1.
    rewrite (words_from_word w [] Hw []), app_nil_r, Hrev.
    cbn [words_from]. rewrite <- Hrev, rev_involutive. reflexivity.
  - rewrite unwords_cons, (words_from_word w _ Hw []), app_nil_r, Hrev.
    cbn [words_from].
    change (is_space " ") with true. cbv iota.
    rewrite <- Hrev, rev_involutive. f_equal. exact IH.
Qed.











(** *** The result of extraction *)







